(** * logprobs_demo: token probability visualizer

    A shallow embedding of [logprobs_demo.py] and the properties of its
    numeric core (extraction, Seq-Logprob aggregation, confidence
    bucketing, bar rendering) and of its entry point.

    Modelling conventions.
    - A Python [float] is the real number it holds ([R]).  The results of
      [sum], [/], [2**x] and [math.exp] are written as the exact real
      expressions ([2**x] is [Rpower 2 x], [math.exp] is [exp]); the
      double that holds such a result is its rounding [b64] to binary64
      (round to nearest, ties to even, with gradual underflow), which is
      what a correctly rounded operation stores.  The rounding is applied
      where the code reads an integer off a float, in [print_bar], and
      where the range of the stored doubles is at stake.  Infinities, NaN
      and results beyond the largest double (which Python turns into
      [inf] or an [OverflowError]) are outside the model.
    - A Python [int] is an integer ([Z]).
    - A Python [str] is its sequence of Unicode code points ([list N]), so
      that [len] is [length] also for the block characters of the bars.
    - [None] is [None] of an [option].
    - [print], the construction of the OpenAI client, the chat-completion
      request and [exit] are the events of a small program monad, which
      is run against an arbitrary completion service. *)

From Stdlib Require Import Reals Lra Lia ZArith String Ascii Bool List.
Import ListNotations.

Local Open Scope R_scope.

(** ** Python numbers *)

Module PyNum.

(** [2 ** x] with a float exponent, as the exact real power; the double
    stored for it is [b64 (pow2 x)]. *)
Definition pow2 (x : R) : R := Rpower 2 x.

(** The power [2^e] of the radix. *)
Definition bpow (e : Z) : R := Rpower 2 (IZR e).

(** Rounding of a real to the nearest integer, ties to the even one. *)
Definition ZnearestE (x : R) : Z :=
  let f := Zfloor x in
  if Rlt_dec (x - IZR f) (/ 2) then f
  else if Rlt_dec (/ 2) (x - IZR f) then (f + 1)%Z
  else if Z.even f then f else (f + 1)%Z.

(** Magnitude: for [x <> 0] the [e] with [2^(e-1) <= |x| < 2^e]. *)
Definition mag (x : R) : Z := (Zfloor (ln (Rabs x) / ln 2) + 1)%Z.

(** Exponent of the last place of binary64 at [x]: 53 bits of precision,
    no exponent below -1074 (subnormal numbers). *)
Definition cexp (x : R) : Z := Z.max (mag x - 53) (-1074).

(** The double nearest to [x] (round to nearest, ties to even). *)
Definition b64 (x : R) : R :=
  IZR (ZnearestE (x * bpow (- cexp x))) * bpow (cexp x).

(** [float(n)], the conversion that [x * n] applies to an int [n]. *)
Definition float_of_int (n : Z) : R := b64 (IZR n).

(** [x * y] on floats. *)
Definition float_mul (x y : R) : R := b64 (x * y).

(** The integers up to [2^53] in magnitude are doubles. *)
Definition MAX_EXACT_INT : Z := 9007199254740992%Z.

(** [int(x)]: truncation towards zero. *)
Definition py_int (x : R) : Z :=
  if Rlt_dec x 0 then Zceil x else Zfloor x.

(** [min(a, b)] and [max(a, b)] of the builtins: the first argument is
    kept unless the second is strictly smaller (resp. greater). *)
Definition py_min (a b : R) : R := if Rlt_dec b a then b else a.
Definition py_max (a b : R) : R := if Rgt_dec b a then b else a.

(** [sum(xs)]: a left fold starting from [0]. *)
Definition py_sum (xs : list R) : R := fold_left Rplus xs 0.

(** [len(xs)] as a Python integer. *)
Definition py_len {A : Type} (xs : list A) : Z := Z.of_nat (List.length xs).

End PyNum.
Import PyNum.

(** ** Python strings *)

Module PyStr.

Definition codepoint := N.
Definition pystr := list codepoint.

(** An ASCII literal as a Python string. *)
Definition str (s : string) : pystr :=
  map N_of_ascii (list_ascii_of_string s).

Definition ESC : codepoint := 27%N.           (* \033 *)
Definition LF : codepoint := 10%N.            (* \n *)
Definition FULL_BLOCK : codepoint := 9608%N.  (* U+2588 *)
Definition LIGHT_SHADE : codepoint := 9617%N. (* U+2591 *)
Definition ELLIPSIS : codepoint := 8230%N.    (* U+2026 *)
Definition WARNING_SIGN : codepoint := 9888%N. (* U+26A0 *)
Definition VS16 : codepoint := 65039%N.       (* U+FE0F *)
Definition CHECK_MARK : codepoint := 9989%N.  (* U+2705 *)

(** [s * n]: repetition; a count that is not positive gives [""]. *)
Definition str_mul (s : pystr) (n : Z) : pystr :=
  concat (repeat s (Z.to_nat n)).

(** [s[:n]] for [n >= 0]. *)
Definition str_take (n : nat) (s : pystr) : pystr := firstn n s.

(** [format(s, "<w")] and [format(s, ">w")]: padding with blanks to
    width [w], never truncating. *)
Definition ljust (w : nat) (s : pystr) : pystr :=
  s ++ repeat 32%N (w - List.length s).
Definition rjust (w : nat) (s : pystr) : pystr :=
  repeat 32%N (w - List.length s) ++ s.

Definition str_eq_dec (a b : pystr) : {a = b} + {a <> b} :=
  list_eq_dec N.eq_dec a b.

(** [str(x)] of an optional string: [None] prints as ["None"]. *)
Definition str_of_opt (o : option pystr) : pystr :=
  match o with
  | Some s => s
  | None => str "None"
  end.

End PyStr.
Import PyStr.

(** ** Data model *)

(** One element of [logprobs.content]. *)
Record TokenLogProb := mkTokenLogProb {
  tl_token : pystr;
  tl_logprob : R
}.

(** [response.choices[0].logprobs]: an object whose [content] may be
    [None]; the object itself may be [None]. *)
Record ChoiceLogprobs := mkChoiceLogprobs {
  content : option (list TokenLogProb)
}.

(** The dictionary built by [extract_token_probabilities]. *)
Record TokenStat := mkTokenStat {
  token : pystr;
  probability : R;
  logprob : R
}.

(** The dictionary built by [calculate_seq_logprob]. *)
Record SeqStats := mkSeqStats {
  avg_logprob : R;
  avg_probability : R;
  perplexity : R;
  num_tokens : Z
}.

(** [not logprobs_data or not logprobs_data.content]: the object is
    always truthy, a list is truthy when it is not empty. *)
Definition usable_content (logprobs_data : option ChoiceLogprobs)
  : option (list TokenLogProb) :=
  match logprobs_data with
  | None => None
  | Some d =>
      match content d with
      | None => None
      | Some [] => None
      | Some (t :: ts) => Some (t :: ts)
      end
  end.

(** ** Core functions *)

(** Body of the [for] loop: one [tokens.append({...})]. *)
Definition append_token_stat (tokens : list TokenStat) (token_info : TokenLogProb)
  : list TokenStat :=
  let prob := pow2 (tl_logprob token_info) in
  tokens ++ [ {| token := tl_token token_info;
                 probability := prob;
                 logprob := tl_logprob token_info |} ].

Definition extract_token_probabilities (logprobs_data : option ChoiceLogprobs)
  : list TokenStat :=
  match usable_content logprobs_data with
  | None => []
  | Some cs => fold_left append_token_stat cs []
  end.

Definition calculate_seq_logprob (logprobs_data : option ChoiceLogprobs)
  : option SeqStats :=
  match usable_content logprobs_data with
  | None => None
  | Some cs =>
      let token_logprobs := map tl_logprob cs in
      let num_tokens := py_len token_logprobs in
      let sum_logprob := py_sum token_logprobs in
      let avg_logprob := sum_logprob / IZR num_tokens in
      let clamped := py_max (py_min (- avg_logprob) 700) (-700) in
      let perplexity := exp clamped in
      Some {| avg_logprob := avg_logprob;
              avg_probability := pow2 avg_logprob;
              perplexity := perplexity;
              num_tokens := num_tokens |}
  end.

(** ** Terminal visualization *)

Definition GREEN : pystr := ESC :: str "[92m".
Definition YELLOW : pystr := ESC :: str "[93m".
Definition RED : pystr := ESC :: str "[91m".

Definition get_confidence_label (prob : R) : pystr * pystr :=
  if Rge_dec prob 0.8 then (str "HIGH", GREEN)
  else if Rge_dec prob 0.5 then (str "MED ", YELLOW)
  else if Rge_dec prob 0.2 then (str "LOW ", RED)
  else (str "VLOW", RED).

(** [prob * width] is the double product, with [width] converted to a
    float first, and [int] truncates it.  The string is the one the call
    returns; a product beyond the doubles and a repetition count beyond
    what the platform allocates make the call raise instead, and are
    outside the model. *)
Definition print_bar (prob : R) (width : Z) : pystr :=
  let filled := py_int (float_mul prob (float_of_int width)) in
  let bar := str_mul [FULL_BLOCK] filled ++ str_mul [LIGHT_SHADE] (width - filled) in
  bar.

(** The default [width = 20] of [print_bar]. *)
Definition print_bar_default_width : Z := 20%Z.

(** ** Programs with output, a completion service and termination *)

Module Prog.

(** [OpenAI(api_key=...)]. *)
Record Client := mkClient { api_key : pystr }.

(** Keyword arguments of [client.chat.completions.create]. *)
Record Request := mkRequest {
  req_model : pystr;
  req_messages : list (pystr * pystr);   (* role, content *)
  req_temperature : R;
  req_max_tokens : Z;
  req_logprobs : bool
}.

Record Choice := mkChoice {
  message_content : option pystr;
  choice_logprobs : option ChoiceLogprobs
}.

Record Response := mkResponse { choices : list Choice }.

(** A program: a tree of the actions the script performs on the outside
    world, ending in a value, in [exit(code)] or in an exception that
    nothing catches. *)
Inductive prog (A : Type) : Type :=
| Ret (a : A)
| PrintLine (line : pystr) (k : prog A)
| NewClient (key : pystr) (k : Client -> prog A)
| ChatCreate (c : Client) (r : Request) (k : Response -> prog A)
| SysExit (code : Z)
| Raise (exn : pystr).

Arguments Ret {A} a.
Arguments PrintLine {A} line k.
Arguments NewClient {A} key k.
Arguments ChatCreate {A} c r k.
Arguments SysExit {A} code.
Arguments Raise {A} exn.

Fixpoint bind {A B : Type} (p : prog A) (f : A -> prog B) : prog B :=
  match p with
  | Ret a => f a
  | PrintLine line k => PrintLine line (bind k f)
  | NewClient key k => NewClient key (fun c => bind (k c) f)
  | ChatCreate c r k => ChatCreate c r (fun resp => bind (k resp) f)
  | SysExit code => SysExit code
  | Raise exn => Raise exn
  end.

Definition print (line : pystr) : prog unit := PrintLine line (Ret tt).

(** [for x in xs: body(x)]. *)
Fixpoint for_each {A : Type} (xs : list A) (body : A -> prog unit) : prog unit :=
  match xs with
  | [] => Ret tt
  | x :: rest => bind (body x) (fun _ => for_each rest body)
  end.

(** What an observer of the process sees. *)
Inductive event : Type :=
| EvPrint (line : pystr)
| EvClient (key : pystr)
| EvRequest (c : Client) (r : Request).

Inductive outcome (A : Type) : Type :=
| Returned (a : A)
| Exited (code : Z)
| Uncaught (exn : pystr).

Arguments Returned {A} a.
Arguments Exited {A} code.
Arguments Uncaught {A} exn.

(** The completion service: it answers a request or the call raises. *)
Definition service := Client -> Request -> Response + pystr.

Fixpoint run {A : Type} (svc : service) (p : prog A) : list event * outcome A :=
  match p with
  | Ret a => ([], Returned a)
  | PrintLine line k =>
      let (tr, o) := run svc k in (EvPrint line :: tr, o)
  | NewClient key k =>
      let (tr, o) := run svc (k (mkClient key)) in (EvClient key :: tr, o)
  | ChatCreate c r k =>
      match svc c r with
      | inl resp => let (tr, o) := run svc (k resp) in (EvRequest c r :: tr, o)
      | inr exn => ([EvRequest c r], Uncaught exn)
      end
  | SysExit code => ([], Exited code)
  | Raise exn => ([], Uncaught exn)
  end.

(** Exit status of the process: [exit(code)] gives [code], a run to the
    end of the script gives 0, an uncaught exception gives 1. *)
Definition exit_status {A : Type} (o : outcome A) : Z :=
  match o with
  | Returned _ => 0%Z
  | Exited code => code
  | Uncaught _ => 1%Z
  end.

Definition is_request (e : event) : bool :=
  match e with EvRequest _ _ => true | _ => false end.

Definition is_client (e : event) : bool :=
  match e with EvClient _ => true | _ => false end.

Definition requests (tr : list event) : list Request :=
  flat_map (fun e => match e with EvRequest _ r => [r] | _ => [] end) tr.

End Prog.
Import Prog.

Declare Scope prog_scope.
Delimit Scope prog_scope with prog.
Notation "x <- p ;; q" := (bind p (fun x => q))
  (at level 61, p at next level, right associativity) : prog_scope.
Notation "p ;; q" := (bind p (fun _ => q))
  (at level 61, right associativity) : prog_scope.

(** ** The completion requester *)

(** The dictionary returned by [get_completion_with_logprobs]. *)
Record CompletionResult := mkCompletionResult {
  completion : option pystr;
  logprobs : option ChoiceLogprobs
}.

Definition SYSTEM_CONTENT : pystr :=
  str "Complete the following sentence with factual information.".

(** The keyword arguments that [get_completion_with_logprobs] passes to
    [client.chat.completions.create]. *)
Definition completion_request (prompt : pystr) (temperature : R) (model : pystr)
  : Request :=
  {| req_model := model;
     req_messages := [ (str "system", SYSTEM_CONTENT); (str "user", prompt) ];
     req_temperature := temperature;
     req_max_tokens := 30;
     req_logprobs := true |}.

Definition get_completion_with_logprobs
  (client : Client) (prompt : pystr) (temperature : R) (model : pystr)
  : prog CompletionResult :=
  ChatCreate client (completion_request prompt temperature model)
    (fun response =>
       match choices response with
       | [] => Raise (str "IndexError")
       | c :: _ =>
           Ret {| completion := message_content c;
                  logprobs := choice_logprobs c |}
       end).

(** ** The renderer *)

(** The conversions of Python's formatting machinery that the renderer
    applies to floats and to token text.  They are builtins of the
    language, not code of the script: the renderer is stated over any
    implementation of them. *)
Class PyFormat := {
  format_float : R -> pystr;   (* f"{x}" *)
  format_pct1 : R -> pystr;    (* format(x, ".1%") *)
  format_f4 : R -> pystr;      (* format(x, ".4f") *)
  format_f2 : R -> pystr;      (* format(x, ".2f") *)
  py_repr : pystr -> pystr     (* repr(s) *)
}.

Definition reset : pystr := ESC :: str "[0m".
Definition bold : pystr := ESC :: str "[1m".
Definition dim : pystr := ESC :: str "[2m".

Section Renderer.

Context {fmt : PyFormat}.

Local Open Scope prog_scope.

(** [repr(tok)[1:-1]], cut to 12 characters and an ellipsis when longer. *)
Definition token_display (tok : pystr) : pystr :=
  let token_display := removelast (tl (py_repr tok)) in
  if (12 <? List.length token_display)%nat
  then str_take 12 token_display ++ [ELLIPSIS]
  else token_display.

(** The aggregate line printed when [seq_stats] is present. *)
Definition overall_line (seq_stats : SeqStats) : pystr :=
  let '(label, color) := get_confidence_label (avg_probability seq_stats) in
  str "  " ++ color
    ++ print_bar (avg_probability seq_stats) print_bar_default_width
    ++ reset ++ str " "
    ++ format_pct1 (avg_probability seq_stats) ++ str " avg | "
    ++ str "logprob: " ++ format_f4 (avg_logprob seq_stats) ++ str " | "
    ++ str "perplexity: " ++ format_f2 (perplexity seq_stats).

(** The table row printed for one token. *)
Definition token_line (t : TokenStat) : pystr :=
  let '(label, color) := get_confidence_label (probability t) in
  str "  " ++ ljust 15 (token_display (token t)) ++ str " "
    ++ color ++ rjust 7 (format_pct1 (probability t)) ++ reset ++ str " "
    ++ rjust 10 (format_f4 (logprob t)) ++ str "  "
    ++ color ++ print_bar (probability t) 15 ++ reset.

Definition print_token_analysis
  (prompt model : pystr) (temperature : R) (completion : option pystr)
  (tokens : list TokenStat) (seq_stats : option SeqStats) : prog unit :=
  print (LF :: str_mul (str "=") 70) ;;
  print (bold ++ str "Prompt:" ++ reset ++ str " " ++ prompt) ;;
  print (bold ++ str "Model:" ++ reset ++ str " " ++ model ++ str " | "
         ++ bold ++ str "Temperature:" ++ reset ++ str " "
         ++ format_float temperature) ;;
  print (str_mul (str "=") 70) ;;
  match seq_stats with
  | Some stats =>
      print (LF :: bold ++ str "Overall Confidence (Seq-Logprob):" ++ reset) ;;
      print (overall_line stats)
  | None => Ret tt
  end ;;
  print (LF :: bold ++ str "Token Analysis:" ++ reset) ;;
  print (str "  " ++ ljust 15 (str "Token") ++ str " " ++ rjust 8 (str "Prob")
         ++ str " " ++ rjust 10 (str "Logprob") ++ str "  Bar") ;;
  print (str "  " ++ str_mul (str "-") 55) ;;
  for_each tokens (fun t => print (token_line t)) ;;
  print (LF :: bold ++ str "Complete Response:" ++ reset) ;;
  print (str "  " ++ dim ++ str_of_opt completion ++ reset) ;;
  print [].

Definition analyze_prompt
  (client : Client) (prompt model : pystr) (temperature : R) : prog unit :=
  result <- get_completion_with_logprobs client prompt temperature model ;;
  let tokens := extract_token_probabilities (logprobs result) in
  let seq_stats := calculate_seq_logprob (logprobs result) in
  print_token_analysis prompt model temperature (completion result)
    tokens seq_stats.

(** ** Main *)

Definition PLACEHOLDER : pystr := str "YOUR_API_KEY_HERE".

(** The configuration constant as the file ships it. *)
Definition OPENAI_API_KEY : pystr := str "YOUR_API_KEY_HERE".

Definition WARNING : pystr :=
  WARNING_SIGN :: VS16
    :: str "  Please set your OPENAI_API_KEY at the top of this file".

Definition INITIALIZED : pystr :=
  CHECK_MARK :: str " OpenAI client initialized" ++ [LF].

Definition PROMPT : pystr :=
  str "In which episode of Friends Rachel shoves up a marshmallow in Monica's nose?".

(** The [__main__] block, for a value of the configuration constant. *)
Definition main (OPENAI_API_KEY : pystr) : prog unit :=
  if str_eq_dec OPENAI_API_KEY PLACEHOLDER
  then print WARNING ;; SysExit 1
  else
    NewClient OPENAI_API_KEY (fun client =>
      print INITIALIZED ;;
      let prompt := PROMPT in
      analyze_prompt client prompt (str "gpt-4o-mini") 1.1).

(** The request that the one analysis of [main] sends. *)
Definition MAIN_REQUEST : Request :=
  completion_request PROMPT 1.1 (str "gpt-4o-mini").

End Renderer.

(** * Vocabulary of the specification *)

(** The spec's reading of one TokenStat. *)
Definition token_stat_of (t : TokenLogProb) : TokenStat :=
  {| token := tl_token t;
     probability := Rpower 2 (tl_logprob t);
     logprob := tl_logprob t |}.

(** The spec's arithmetic mean of a sequence of reals. *)
Definition arithmetic_mean (xs : list R) : R :=
  fold_right Rplus 0 xs / INR (List.length xs).

(** The spec's [clamp(x, lo, hi)]. *)
Definition clamp (x lo hi : R) : R := Rmax lo (Rmin x hi).

(** The four labels, as the code pads them to four characters. *)
Definition HIGH : pystr := str "HIGH".
Definition MED : pystr := str "MED ".
Definition LOW : pystr := str "LOW ".
Definition VLOW : pystr := str "VLOW".

(** An absent log-probability object, or one whose content is absent or
    empty. *)
Definition absent_or_empty (logprobs_data : option ChoiceLogprobs) : Prop :=
  match logprobs_data with
  | None => True
  | Some d => content d = None \/ content d = Some []
  end.

Section RendererLines.

Context {fmt : PyFormat}.

(** The four lines of the header. *)
Definition header_lines (prompt model : pystr) (temperature : R) : list pystr :=
  [ LF :: str_mul (str "=") 70;
    bold ++ str "Prompt:" ++ reset ++ str " " ++ prompt;
    bold ++ str "Model:" ++ reset ++ str " " ++ model ++ str " | "
      ++ bold ++ str "Temperature:" ++ reset ++ str " "
      ++ format_float temperature;
    str_mul (str "=") 70 ].

(** The aggregate-confidence section. *)
Definition aggregate_lines (seq_stats : option SeqStats) : list pystr :=
  match seq_stats with
  | Some stats =>
      [ LF :: bold ++ str "Overall Confidence (Seq-Logprob):" ++ reset;
        overall_line stats ]
  | None => []
  end.

(** Title, column names and rule of the token table. *)
Definition table_head_lines : list pystr :=
  [ LF :: bold ++ str "Token Analysis:" ++ reset;
    str "  " ++ ljust 15 (str "Token") ++ str " " ++ rjust 8 (str "Prob")
      ++ str " " ++ rjust 10 (str "Logprob") ++ str "  Bar";
    str "  " ++ str_mul (str "-") 55 ].

(** The completion text and the closing blank line. *)
Definition completion_lines (completion : option pystr) : list pystr :=
  [ LF :: bold ++ str "Complete Response:" ++ reset;
    str "  " ++ dim ++ str_of_opt completion ++ reset;
    [] ].

End RendererLines.

(** ** Sample inputs *)

(** Two very unlikely tokens: the value -9999 that the service reports
    for a token outside its ranking, and -1075. *)
Definition underflow_logprobs : ChoiceLogprobs :=
  {| content := Some [ {| tl_token := str "a"; tl_logprob := -9999 |};
                       {| tl_token := str "b"; tl_logprob := -1075 |} ] |}.

(** The double that the literal [0.6] denotes, a little below 6/10. *)
Definition double_0_6 : R := 5404319552844595 / 9007199254740992.

Definition sample_content : list TokenLogProb :=
  [ {| tl_token := str "Paris"; tl_logprob := -1 |};
    {| tl_token := str "!"; tl_logprob := -3 |} ].

Definition sample_logprobs : ChoiceLogprobs :=
  {| content := Some sample_content |}.

(** A sequence whose mean log-probability is [-800]: the clamp engages. *)
Definition steep_logprobs : ChoiceLogprobs :=
  {| content := Some [ {| tl_token := str "x"; tl_logprob := -800 |} ] |}.

(** A formatter for closed examples: every number prints as a fixed
    mark, and [repr] only adds the quotes. *)
Definition mark_format : PyFormat :=
  {| format_float := fun _ => str "#";
     format_pct1 := fun _ => str "#%";
     format_f4 := fun _ => str "#";
     format_f2 := fun _ => str "#";
     py_repr := fun s => 39%N :: s ++ [39%N] |}.

(** A service that answers every request with one choice that carries no
    log-probabilities. *)
Definition bare_service : service :=
  fun _ _ =>
    inl {| choices := [ {| message_content := Some (str "Paris");
                           choice_logprobs := None |} ] |}.

(** ** Vocabulary of the further properties *)

(** The double stored for the probability of a token stat: the rounding
    of the exact power that [2**logprob] computes. *)
Definition stored_probability (t : TokenStat) : R := b64 (probability t).

(** Log-probabilities none of which is positive, as the service reports
    them. *)
Definition nonpositive_logprobs (logprobs_data : option ChoiceLogprobs) : Prop :=
  match logprobs_data with
  | Some d =>
      match content d with
      | Some cs => Forall (fun c => tl_logprob c <= 0) cs
      | None => True
      end
  | None => True
  end.

(** Position of a label in the order VLOW, LOW, MED, HIGH. *)
Definition bucket_rank (label : pystr) : nat :=
  if str_eq_dec label HIGH then 3
  else if str_eq_dec label MED then 2
  else if str_eq_dec label LOW then 1
  else 0.

(** Product of a sequence of reals. *)
Definition product (xs : list R) : R := fold_right Rmult 1 xs.

(** Number of filled cells of a bar. *)
Definition filled_cells (bar : pystr) : nat :=
  count_occ N.eq_dec bar FULL_BLOCK.

(** A service whose every call raises. *)
Definition failing_service : service :=
  fun _ _ => inr (str "APIConnectionError").

(** A service that answers with no choice at all. *)
Definition mute_service : service :=
  fun _ _ => inl {| choices := [] |}.

(** A service that answers with [sample_logprobs]. *)
Definition sample_service : service :=
  fun _ _ =>
    inl {| choices := [ {| message_content := Some (str "Paris!");
                           choice_logprobs := Some sample_logprobs |} ] |}.

(** * Properties *)

(** ** Binary64 rounding *)
Lemma bpow_pos (e : Z) : 0 < bpow e.
Proof. unfold bpow, Rpower; apply exp_pos. Qed.

Lemma bpow_add (a b : Z) : bpow (a + b) = bpow a * bpow b.
Proof. unfold bpow; now rewrite plus_IZR, Rpower_plus. Qed.

Lemma bpow_0 : bpow 0 = 1.
Proof. unfold bpow; apply Rpower_O; lra. Qed.

Lemma bpow_opp (e : Z) : bpow (- e) = / bpow e.
Proof. unfold bpow; now rewrite opp_IZR, Rpower_Ropp. Qed.

Lemma bpow_le (a b : Z) : (a <= b)%Z -> bpow a <= bpow b.
Proof. intros H; unfold bpow; apply Rle_Rpower; [lra | now apply IZR_le]. Qed.

Lemma bpow_lt (a b : Z) : (a < b)%Z -> bpow a < bpow b.
Proof. intros H; unfold bpow; apply Rpower_lt; [lra | now apply IZR_lt]. Qed.

Lemma bpow_lt_inv (a b : Z) : bpow a < bpow b -> (a < b)%Z.
Proof.
  intros H. destruct (Z_lt_le_dec a b) as [Hlt | Hge]; [exact Hlt|].
  apply bpow_le in Hge; lra.
Qed.

Lemma bpow_nonneg_exp (n : Z) : (0 <= n)%Z -> bpow n = IZR (2 ^ n).
Proof.
  intros Hn. unfold bpow.
  rewrite <- (Z2Nat.id n Hn) at 1.
  rewrite <- INR_IZR_INZ, Rpower_pow by lra.
  rewrite pow_IZR, Z2Nat.id by exact Hn. reflexivity.
Qed.

Lemma mag_spec (x : R) : x <> 0 -> bpow (mag x - 1) <= Rabs x < bpow (mag x).
Proof.
  intros Hx. pose proof (Rabs_pos_lt x Hx) as Hpos.
  assert (Hln2 : 0 < ln 2) by (pose proof ln_lt_2; lra).
  unfold mag.
  destruct (Zfloor_bound (ln (Rabs x) / ln 2)) as [Hlo Hhi].
  set (f := Zfloor (ln (Rabs x) / ln 2)) in *.
  replace (f + 1 - 1)%Z with f by lia.
  assert (Hlo' : IZR f * ln 2 <= ln (Rabs x)).
  { apply Rmult_le_reg_r with (/ ln 2); [now apply Rinv_0_lt_compat|].
    rewrite Rmult_assoc, Rinv_r by lra. unfold Rdiv in Hlo. lra. }
  assert (Hhi' : ln (Rabs x) < IZR (f + 1) * ln 2).
  { rewrite plus_IZR.
    apply Rmult_lt_reg_r with (/ ln 2); [now apply Rinv_0_lt_compat|].
    rewrite Rmult_assoc, Rinv_r by lra. unfold Rdiv in Hhi. lra. }
  assert (Hexp : exp (ln (Rabs x)) = Rabs x) by now apply exp_ln.
  unfold bpow, Rpower. split.
  - rewrite <- Hexp.
    destruct Hlo' as [Hlt | Heq];
      [left; now apply exp_increasing | right; now rewrite Heq].
  - rewrite <- Hexp at 1. now apply exp_increasing.
Qed.

Lemma mag_unique (x : R) (e : Z) :
  bpow (e - 1) <= Rabs x < bpow e -> mag x = e.
Proof.
  intros [Hlo Hhi].
  assert (Hx : x <> 0).
  { intros ->. rewrite Rabs_R0 in Hlo. pose proof (bpow_pos (e - 1)). lra. }
  destruct (mag_spec x Hx) as [Hlo' Hhi'].
  assert (H1 : (mag x - 1 < e)%Z) by (apply bpow_lt_inv; lra).
  assert (H2 : (e - 1 < mag x)%Z) by (apply bpow_lt_inv; lra).
  lia.
Qed.

Lemma mag_le_bound (x : R) (e : Z) : x <> 0 -> Rabs x < bpow e -> (mag x <= e)%Z.
Proof.
  intros Hx Hlt. destruct (mag_spec x Hx) as [Hlo _].
  assert (H : (mag x - 1 < e)%Z) by (apply bpow_lt_inv; lra). lia.
Qed.

Lemma mag_monotone (x y : R) : x <> 0 -> Rabs x <= Rabs y -> (mag x <= mag y)%Z.
Proof.
  intros Hx Hle.
  assert (Hy : y <> 0).
  { intros ->. rewrite Rabs_R0 in Hle. pose proof (Rabs_pos_lt x Hx). lra. }
  destruct (mag_spec y Hy) as [_ Hhi].
  apply mag_le_bound; [exact Hx | lra].
Qed.

Lemma mag_opp (x : R) : mag (- x) = mag x.
Proof. unfold mag; now rewrite Rabs_Ropp. Qed.

Lemma cexp_opp (x : R) : cexp (- x) = cexp x.
Proof. unfold cexp; now rewrite mag_opp. Qed.

Lemma ZnearestE_IZR (n : Z) : ZnearestE (IZR n) = n.
Proof.
  unfold ZnearestE; rewrite ZfloorZ.
  destruct (Rlt_dec (IZR n - IZR n) (/ 2)); [reflexivity | lra].
Qed.

Lemma ZnearestE_range (x : R) :
  (Zfloor x <= ZnearestE x <= Zfloor x + 1)%Z.
Proof.
  unfold ZnearestE.
  destruct (Rlt_dec _ _); [lia|].
  destruct (Rlt_dec _ _); [lia|].
  destruct (Z.even _); lia.
Qed.

Lemma ZnearestE_monotone (x y : R) : x <= y -> (ZnearestE x <= ZnearestE y)%Z.
Proof.
  intros Hxy.
  pose proof (Zfloor_le x y Hxy) as Hf.
  pose proof (ZnearestE_range x) as Hx.
  pose proof (ZnearestE_range y) as Hy.
  destruct (Z.eq_dec (Zfloor x) (Zfloor y)) as [Heq | Hne]; [|lia].
  unfold ZnearestE; rewrite <- Heq.
  destruct (Rlt_dec (x - IZR (Zfloor x)) (/ 2)) as [Hx1 | Hx1];
    destruct (Rlt_dec (y - IZR (Zfloor x)) (/ 2)) as [Hy1 | Hy1]; try lia; try lra.
  - destruct (Rlt_dec (/ 2) (y - IZR (Zfloor x))); [lia|].
    destruct (Z.even (Zfloor x)); lia.
  - destruct (Rlt_dec (/ 2) (x - IZR (Zfloor x))) as [Hx2 | Hx2];
      destruct (Rlt_dec (/ 2) (y - IZR (Zfloor x))) as [Hy2 | Hy2]; try lia; try lra.
    destruct (Z.even (Zfloor x)); lia.
Qed.

Lemma Zfloor_opp_nonint (x : R) :
  IZR (Zfloor x) <> x -> Zfloor (- x) = (- Zfloor x - 1)%Z.
Proof.
  intros Hne. destruct (Zfloor_bound x) as [Hlo Hhi].
  apply Zfloor_eq. rewrite minus_IZR, opp_IZR. lra.
Qed.

Lemma ZnearestE_opp (x : R) : ZnearestE (- x) = (- ZnearestE x)%Z.
Proof.
  destruct (Req_dec (IZR (Zfloor x)) x) as [Hint | Hnon].
  - rewrite <- Hint, <- opp_IZR, !ZnearestE_IZR. reflexivity.
  - destruct (Zfloor_bound x) as [Hlo Hhi].
    unfold ZnearestE. rewrite (Zfloor_opp_nonint x Hnon).
    rewrite minus_IZR, opp_IZR.
    set (f := Zfloor x) in *.
    destruct (Rlt_dec (x - IZR f) (/ 2)) as [H1 | H1].
    + destruct (Rlt_dec (- x - (- IZR f - 1)) (/ 2)); [lra|].
      destruct (Rlt_dec (/ 2) (- x - (- IZR f - 1))); [lia | lra].
    + destruct (Rlt_dec (/ 2) (x - IZR f)) as [H2 | H2].
      * destruct (Rlt_dec (- x - (- IZR f - 1)) (/ 2)); [lia | lra].
      * destruct (Rlt_dec (- x - (- IZR f - 1)) (/ 2)); [lra|].
        destruct (Rlt_dec (/ 2) (- x - (- IZR f - 1))); [lra|].
        replace (- f - 1)%Z with (- (f + 1))%Z by lia.
        rewrite Z.even_opp, Z.even_add; simpl.
        destruct (Z.even f); simpl; lia.
Qed.

Lemma b64_0 : b64 0 = 0.
Proof.
  unfold b64. rewrite Rmult_0_l.
  replace 0 with (IZR 0) at 1 by reflexivity.
  rewrite ZnearestE_IZR. simpl. lra.
Qed.

Lemma b64_opp (x : R) : b64 (- x) = - b64 x.
Proof.
  unfold b64. rewrite cexp_opp.
  replace (- x * bpow (- cexp x)) with (- (x * bpow (- cexp x))) by lra.
  rewrite ZnearestE_opp, opp_IZR. lra.
Qed.

Lemma b64_nonneg (x : R) : 0 <= x -> 0 <= b64 x.
Proof.
  intros Hx. unfold b64.
  apply Rmult_le_pos; [|left; apply bpow_pos].
  apply IZR_le. rewrite <- (ZnearestE_IZR 0).
  apply ZnearestE_monotone. simpl.
  apply Rmult_le_pos; [exact Hx | left; apply bpow_pos].
Qed.

(** Numbers [m * 2^e] with [e] not below the exponent of the last place
    are doubles. *)
Lemma b64_representable (m e : Z) :
  (cexp (IZR m * bpow e) <= e)%Z ->
  b64 (IZR m * bpow e) = IZR m * bpow e.
Proof.
  intros Hc. unfold b64.
  set (c := cexp (IZR m * bpow e)) in *.
  replace (IZR m * bpow e * bpow (- c)) with (IZR (m * 2 ^ (e - c))).
  - rewrite ZnearestE_IZR, mult_IZR, <- bpow_nonneg_exp by lia.
    rewrite Rmult_assoc, <- bpow_add. now replace (e - c + c)%Z with e by lia.
  - rewrite mult_IZR, <- bpow_nonneg_exp by lia.
    rewrite Rmult_assoc, <- bpow_add. now replace (e + - c)%Z with (e - c)%Z by lia.
Qed.

Lemma b64_le_bpow (x : R) (k : Z) :
  (cexp x <= k)%Z -> x <= bpow k -> b64 x <= bpow k.
Proof.
  intros Hc Hx. unfold b64.
  replace (bpow k) with (IZR (2 ^ (k - cexp x)) * bpow (cexp x)).
  - apply Rmult_le_compat_r; [left; apply bpow_pos|].
    apply IZR_le. rewrite <- (ZnearestE_IZR (2 ^ (k - cexp x))).
    apply ZnearestE_monotone.
    rewrite <- bpow_nonneg_exp by lia.
    replace (k - cexp x)%Z with (k + - cexp x)%Z by lia. rewrite bpow_add.
    apply Rmult_le_compat_r; [left; apply bpow_pos | exact Hx].
  - rewrite <- bpow_nonneg_exp by lia. rewrite <- bpow_add.
    now replace (k - cexp x + cexp x)%Z with k by lia.
Qed.

Lemma b64_ge_bpow (x : R) (k : Z) :
  (cexp x <= k)%Z -> bpow k <= x -> bpow k <= b64 x.
Proof.
  intros Hc Hx. unfold b64.
  replace (bpow k) with (IZR (2 ^ (k - cexp x)) * bpow (cexp x)) at 1.
  - apply Rmult_le_compat_r; [left; apply bpow_pos|].
    apply IZR_le. rewrite <- (ZnearestE_IZR (2 ^ (k - cexp x))) at 1.
    apply ZnearestE_monotone.
    rewrite <- bpow_nonneg_exp by lia.
    replace (k - cexp x)%Z with (k + - cexp x)%Z by lia. rewrite bpow_add.
    apply Rmult_le_compat_r; [left; apply bpow_pos | exact Hx].
  - rewrite <- bpow_nonneg_exp by lia. rewrite <- bpow_add.
    now replace (k - cexp x + cexp x)%Z with k by lia.
Qed.

Lemma b64_monotone_pos (x y : R) : 0 < x -> x <= y -> b64 x <= b64 y.
Proof.
  intros Hx Hxy.
  assert (Hx0 : x <> 0) by lra. assert (Hy0 : y <> 0) by lra.
  assert (Hmag : (mag x <= mag y)%Z).
  { apply mag_monotone; [exact Hx0|]. rewrite !Rabs_pos_eq by lra. exact Hxy. }
  destruct (Z.eq_dec (cexp x) (cexp y)) as [Heq | Hne].
  - unfold b64. rewrite Heq.
    apply Rmult_le_compat_r; [left; apply bpow_pos|].
    apply IZR_le, ZnearestE_monotone.
    apply Rmult_le_compat_r; [left; apply bpow_pos | exact Hxy].
  - assert (Hcy : cexp y = (mag y - 53)%Z) by (unfold cexp in *; lia).
    assert (Hlt : (mag x < mag y)%Z) by (unfold cexp in *; lia).
    destruct (mag_spec x Hx0) as [_ Hxhi].
    destruct (mag_spec y Hy0) as [Hylo _].
    rewrite Rabs_pos_eq in Hxhi, Hylo by lra.
    apply Rle_trans with (bpow (mag y - 1)).
    + apply b64_le_bpow; [unfold cexp in *; lia|].
      apply Rle_trans with (bpow (mag x)); [lra | apply bpow_le; lia].
    + apply b64_ge_bpow; [lia | exact Hylo].
Qed.

Lemma b64_monotone (x y : R) : x <= y -> b64 x <= b64 y.
Proof.
  intros Hxy.
  destruct (Rlt_le_dec 0 x) as [Hx | Hx].
  - now apply b64_monotone_pos.
  - destruct (Rlt_le_dec y 0) as [Hy | Hy].
    + apply Ropp_le_cancel. rewrite <- !b64_opp.
      apply b64_monotone_pos; lra.
    + apply Rle_trans with 0; [|now apply b64_nonneg].
      apply Ropp_le_cancel. rewrite <- b64_opp, Ropp_0.
      apply b64_nonneg; lra.
Qed.

Lemma b64_integer (n : Z) :
  (Z.abs n <= MAX_EXACT_INT)%Z -> b64 (IZR n) = IZR n.
Proof.
  unfold MAX_EXACT_INT; intros Hn.
  destruct (Z.eq_dec n 0) as [-> | Hn0]; [apply b64_0|].
  assert (Hx : IZR n <> 0) by (intros H; apply eq_IZR in H; contradiction).
  assert (Habs : Rabs (IZR n) = IZR (Z.abs n)) by (symmetry; apply abs_IZR).
  destruct (Z.eq_dec (Z.abs n) 9007199254740992) as [Hmax | Hless].
  - assert (Hmag : mag (IZR n) = 54%Z).
    { apply mag_unique. rewrite Habs, Hmax.
      rewrite !bpow_nonneg_exp by lia. split; [right; reflexivity|].
      apply IZR_lt. reflexivity. }
    assert (Hhalf : IZR n = IZR (n / 2) * bpow 1).
    { rewrite bpow_nonneg_exp by lia. rewrite <- mult_IZR. f_equal.
      assert (Hcase : n = 9007199254740992%Z \/ n = (-9007199254740992)%Z)
        by lia.
      destruct Hcase as [-> | ->]; reflexivity. }
    rewrite Hhalf. apply b64_representable. rewrite <- Hhalf.
    unfold cexp; rewrite Hmag; lia.
  - replace (IZR n) with (IZR n * bpow 0) by (rewrite bpow_0; lra).
    apply b64_representable.
    rewrite bpow_0, Rmult_1_r.
    assert (Hmag : (mag (IZR n) <= 53)%Z).
    { apply mag_le_bound; [exact Hx|]. rewrite Habs.
      rewrite bpow_nonneg_exp by lia. apply IZR_lt.
      change (2 ^ 53)%Z with 9007199254740992%Z. lia. }
    unfold cexp; lia.
Qed.

Lemma ZnearestE_half (s : R) : Rabs s <= / 2 -> ZnearestE s = 0%Z.
Proof.
  intros Hs.
  assert (Hb : - / 2 <= s <= / 2)
    by (unfold Rabs in Hs; destruct (Rcase_abs s); lra).
  destruct Hb as [Hlo Hhi].
  unfold ZnearestE.
  destruct (Rlt_le_dec s 0) as [Hneg | Hpos].
  - assert (Hf : Zfloor s = (-1)%Z) by (apply Zfloor_eq; simpl; lra).
    rewrite Hf; simpl.
    destruct (Rlt_dec (s - -1) (/ 2)); [lra|].
    destruct (Rlt_dec (/ 2) (s - -1)); reflexivity.
  - assert (Hf : Zfloor s = 0%Z) by (apply Zfloor_eq; simpl; lra).
    rewrite Hf; simpl.
    destruct (Rlt_dec (s - 0) (/ 2)); [reflexivity|].
    destruct (Rlt_dec (/ 2) (s - 0)); [lra | reflexivity].
Qed.

Lemma b64_underflow (x : R) : Rabs x <= bpow (-1075) -> b64 x = 0.
Proof.
  intros Hx.
  destruct (Req_dec x 0) as [-> | Hx0]; [apply b64_0|].
  assert (Hmag : (mag x <= -1074)%Z).
  { apply mag_le_bound; [exact Hx0|].
    apply Rle_lt_trans with (bpow (-1075)); [exact Hx | apply bpow_lt; lia]. }
  assert (Hc : cexp x = (-1074)%Z) by (unfold cexp; lia).
  unfold b64. rewrite Hc.
  rewrite ZnearestE_half; [simpl; lra|].
  rewrite Rabs_mult, (Rabs_pos_eq (bpow _)) by (left; apply bpow_pos).
  replace (/ 2) with (bpow (-1075) * bpow (- -1074)).
  - apply Rmult_le_compat_r; [left; apply bpow_pos | exact Hx].
  - rewrite <- bpow_add. replace (-1075 + - -1074)%Z with (- (1))%Z by lia.
    rewrite bpow_opp. rewrite bpow_nonneg_exp by lia. reflexivity.
Qed.

Lemma ZnearestE_near (s : R) (n : Z) :
  IZR n - / 2 < s < IZR n + / 2 -> ZnearestE s = n.
Proof.
  intros [Hlo Hhi]. unfold ZnearestE.
  destruct (Rlt_le_dec s (IZR n)) as [Hbelow | Habove].
  - assert (Hf : Zfloor s = (n - 1)%Z)
      by (apply Zfloor_eq; rewrite minus_IZR; lra).
    rewrite Hf, minus_IZR.
    destruct (Rlt_dec (s - (IZR n - 1)) (/ 2)); [lra|].
    destruct (Rlt_dec (/ 2) (s - (IZR n - 1))); [lia | lra].
  - assert (Hf : Zfloor s = n) by (apply Zfloor_eq; lra).
    rewrite Hf.
    destruct (Rlt_dec (s - IZR n) (/ 2)); [reflexivity | lra].
Qed.

Lemma ZnearestE_tie (f : Z) :
  ZnearestE (IZR f + / 2) = if Z.even f then f else (f + 1)%Z.
Proof.
  unfold ZnearestE.
  assert (Hf : Zfloor (IZR f + / 2) = f) by (apply Zfloor_eq; lra).
  rewrite Hf.
  destruct (Rlt_dec (IZR f + / 2 - IZR f) (/ 2)); [lra|].
  destruct (Rlt_dec (/ 2) (IZR f + / 2 - IZR f)); [lra | reflexivity].
Qed.

Lemma b64_eval (x : R) (e n : Z) :
  bpow (e - 1) <= Rabs x < bpow e ->
  ZnearestE (x * bpow (- Z.max (e - 53) (-1074))) = n ->
  b64 x = IZR n * bpow (Z.max (e - 53) (-1074)).
Proof.
  intros Hmag Hn. unfold b64, cexp.
  now rewrite (mag_unique x e Hmag), Hn.
Qed.

(** The double 0.6 times 15 is the double 9, although the exact product
    is below 9. *)
Lemma b64_double_0_6_times_15 : b64 (double_0_6 * 15) = 9.
Proof.
  rewrite (b64_eval (double_0_6 * 15) 4 5066549580791808).
  - change (Z.max (4 - 53) (-1074)) with (- (49))%Z.
    rewrite bpow_opp, (bpow_nonneg_exp 49) by lia.
    change (2 ^ 49)%Z with 562949953421312%Z. lra.
  - change (4 - 1)%Z with 3%Z.
    rewrite (bpow_nonneg_exp 3), (bpow_nonneg_exp 4) by lia.
    change (2 ^ 3)%Z with 8%Z; change (2 ^ 4)%Z with 16%Z.
    unfold double_0_6; rewrite Rabs_pos_eq by lra. lra.
  - change (- Z.max (4 - 53) (-1074))%Z with 49%Z.
    rewrite (bpow_nonneg_exp 49) by lia.
    change (2 ^ 49)%Z with 562949953421312%Z.
    apply ZnearestE_near. unfold double_0_6. lra.
Qed.

(** The integer [2^53 + 3] is not a double: it rounds to [2^53 + 4]. *)
Lemma b64_above_2_53 : b64 9007199254740995 = 9007199254740996.
Proof.
  rewrite (b64_eval 9007199254740995 54 4503599627370498).
  - change (Z.max (54 - 53) (-1074)) with 1%Z.
    rewrite (bpow_nonneg_exp 1) by lia. change (2 ^ 1)%Z with 2%Z. lra.
  - change (54 - 1)%Z with 53%Z.
    rewrite (bpow_nonneg_exp 53), (bpow_nonneg_exp 54) by lia.
    change (2 ^ 53)%Z with 9007199254740992%Z.
    change (2 ^ 54)%Z with 18014398509481984%Z.
    rewrite Rabs_pos_eq by lra. lra.
  - change (- Z.max (54 - 53) (-1074))%Z with (- (1))%Z.
    rewrite bpow_opp, (bpow_nonneg_exp 1) by lia. change (2 ^ 1)%Z with 2%Z.
    replace (9007199254740995 * / 2) with (IZR 4503599627370497 + / 2) by lra.
    rewrite ZnearestE_tie. reflexivity.
Qed.

(** Just below 1: everything from [1 - 2^-54] up rounds to 1. *)
Lemma b64_near_1 (x : R) : 1 - bpow (-54) <= x <= 1 -> b64 x = 1.
Proof.
  intros [Hlo Hhi].
  destruct (Req_dec x 1) as [-> | Hne].
  { replace 1 with (IZR 1) by reflexivity. apply b64_integer.
    unfold MAX_EXACT_INT; simpl; lia. }
  assert (H54 : bpow (-54) = / 18014398509481984).
  { change (-54)%Z with (- (54))%Z.
    rewrite bpow_opp, (bpow_nonneg_exp 54) by lia.
    change (2 ^ 54)%Z with 18014398509481984%Z. reflexivity. }
  rewrite H54 in Hlo.
  rewrite (b64_eval x 0 9007199254740992).
  - change (Z.max (0 - 53) (-1074)) with (- (53))%Z.
    rewrite bpow_opp, (bpow_nonneg_exp 53) by lia.
    change (2 ^ 53)%Z with 9007199254740992%Z. lra.
  - change (0 - 1)%Z with (- (1))%Z.
    rewrite bpow_opp, (bpow_nonneg_exp 1), bpow_0 by lia.
    change (2 ^ 1)%Z with 2%Z.
    rewrite Rabs_pos_eq by lra. lra.
  - change (- Z.max (0 - 53) (-1074))%Z with 53%Z.
    rewrite (bpow_nonneg_exp 53) by lia.
    change (2 ^ 53)%Z with 9007199254740992%Z.
    destruct (Req_dec x (1 - / 18014398509481984)) as [-> | Hne'].
    + replace ((1 - / 18014398509481984) * 9007199254740992)
        with (IZR 9007199254740991 + / 2) by lra.
      rewrite ZnearestE_tie. reflexivity.
    + apply ZnearestE_near. lra.
Qed.

(** ** Builtins against their mathematical reading *)

Lemma py_min_Rmin (a b : R) : py_min a b = Rmin a b.
Proof.
  unfold py_min, Rmin.
  destruct (Rlt_dec b a), (Rle_dec a b); lra.
Qed.

Lemma py_max_Rmax (a b : R) : py_max a b = Rmax a b.
Proof.
  unfold py_max, Rmax.
  destruct (Rgt_dec b a), (Rle_dec a b); lra.
Qed.

Lemma fold_left_Rplus_acc (xs : list R) (acc : R) :
  fold_left Rplus xs acc = acc + fold_right Rplus 0 xs.
Proof.
  revert acc; induction xs as [|x xs IH]; intros acc; simpl.
  - lra.
  - rewrite IH; lra.
Qed.

Lemma py_sum_fold_right (xs : list R) : py_sum xs = fold_right Rplus 0 xs.
Proof. unfold py_sum; rewrite fold_left_Rplus_acc; lra. Qed.

Lemma py_int_nonneg (x : R) : 0 <= x -> py_int x = Zfloor x.
Proof.
  intros Hx; unfold py_int.
  destruct (Rlt_dec x 0); [lra | reflexivity].
Qed.

Lemma py_int_neg (x : R) : x < 0 -> py_int x = Zceil x.
Proof.
  intros Hx; unfold py_int.
  destruct (Rlt_dec x 0); [reflexivity | lra].
Qed.

Lemma pow2_pos (x : R) : 0 < pow2 x.
Proof. unfold pow2, Rpower; apply exp_pos. Qed.

Lemma pow2_0 : pow2 0 = 1.
Proof. unfold pow2; apply Rpower_O; lra. Qed.

Lemma pow2_lt (x y : R) : x < y -> pow2 x < pow2 y.
Proof. intros H; unfold pow2; apply Rpower_lt; lra. Qed.

Lemma pow2_le_1 (x : R) : x <= 0 -> pow2 x <= 1.
Proof.
  intros [H | ->].
  - left; rewrite <- pow2_0; now apply pow2_lt.
  - right; apply pow2_0.
Qed.

Lemma pow2_le (x y : R) : x <= y -> pow2 x <= pow2 y.
Proof.
  intros [Hlt | ->]; [left; now apply pow2_lt | right; reflexivity].
Qed.

(** ** The extractor *)

Lemma fold_append_token_stat (cs : list TokenLogProb) (acc : list TokenStat) :
  fold_left append_token_stat cs acc = acc ++ map token_stat_of cs.
Proof.
  revert acc; induction cs as [|c cs IH]; intros acc; simpl.
  - now rewrite app_nil_r.
  - rewrite IH; unfold append_token_stat; simpl.
    now rewrite <- app_assoc.
Qed.

Lemma usable_content_nonempty (d : ChoiceLogprobs) (cs : list TokenLogProb) :
  content d = Some cs -> cs <> [] -> usable_content (Some d) = Some cs.
Proof.
  intros Hc Hne; unfold usable_content; rewrite Hc.
  destruct cs; [contradiction | reflexivity].
Qed.

Lemma extract_nonempty (d : ChoiceLogprobs) (cs : list TokenLogProb) :
  content d = Some cs ->
  extract_token_probabilities (Some d) = map token_stat_of cs.
Proof.
  intros Hc; unfold extract_token_probabilities, usable_content; rewrite Hc.
  destruct cs as [|c cs]; [reflexivity|].
  now rewrite fold_append_token_stat.
Qed.

(** C4: for an absent object, an absent [content] or an empty [content]
    the extractor returns the empty list; for any other input it
    returns one TokenStat per element, in the input's order, each with the
    element's token and logprob unchanged and probability [2^logprob]. *)
Theorem extract_token_probabilities_spec :
  extract_token_probabilities None = []
  /\ extract_token_probabilities (Some {| content := None |}) = []
  /\ extract_token_probabilities (Some {| content := Some [] |}) = []
  /\ forall cs : list TokenLogProb,
       let out := extract_token_probabilities (Some {| content := Some cs |}) in
       List.length out = List.length cs
       /\ map token out = map tl_token cs
       /\ map logprob out = map tl_logprob cs
       /\ map probability out = map (fun t => Rpower 2 (tl_logprob t)) cs
       /\ forall (i : nat) (t : TokenLogProb),
            nth_error cs i = Some t ->
            nth_error out i =
              Some {| token := tl_token t;
                      probability := Rpower 2 (tl_logprob t);
                      logprob := tl_logprob t |}.
Proof.
  repeat split; try reflexivity;
    rewrite (extract_nonempty {| content := Some cs |} cs eq_refl).
  - apply length_map.
  - rewrite map_map; reflexivity.
  - rewrite map_map; reflexivity.
  - rewrite map_map; reflexivity.
  - intros i t Hi.
    rewrite nth_error_map, Hi; reflexivity.
Qed.

Lemma extract_token_probabilities_spec_witness :
  nth_error (extract_token_probabilities (Some sample_logprobs)) 1
  = Some {| token := str "!"; probability := Rpower 2 (-3); logprob := -3 |}.
Proof.
  destruct extract_token_probabilities_spec as (_ & _ & _ & H).
  destruct (H sample_content) as (_ & _ & _ & _ & Hnth).
  apply (Hnth 1%nat {| tl_token := str "!"; tl_logprob := -3 |}).
  reflexivity.
Defined.

(** ** The sequence confidence calculator *)

Lemma calculate_nonempty (d : ChoiceLogprobs) (cs : list TokenLogProb) :
  content d = Some cs -> cs <> [] ->
  calculate_seq_logprob (Some d) =
    Some {| avg_logprob := arithmetic_mean (map tl_logprob cs);
            avg_probability := pow2 (arithmetic_mean (map tl_logprob cs));
            perplexity :=
              exp (clamp (- arithmetic_mean (map tl_logprob cs)) (-700) 700);
            num_tokens := Z.of_nat (List.length cs) |}.
Proof.
  intros Hc Hne.
  unfold calculate_seq_logprob.
  rewrite (usable_content_nonempty d cs Hc Hne).
  cbv zeta.
  rewrite py_max_Rmax, py_min_Rmin, py_sum_fold_right.
  unfold py_len, arithmetic_mean, clamp.
  rewrite <- INR_IZR_INZ, length_map, Rmax_comm.
  reflexivity.
Qed.

(** C1: on a non-empty log-probability sequence of length [n] the
    calculator returns stats whose [avg_logprob] is the arithmetic mean
    [sum(logprob_i) / n] of the raw log-probabilities, whose
    [avg_probability] is [2^avg_logprob] and whose [num_tokens] is [n],
    which is also the length of the extractor's output on the same input. *)
Theorem calculate_seq_logprob_mean
  (d : ChoiceLogprobs) (cs : list TokenLogProb) :
  content d = Some cs -> cs <> [] ->
  exists stats : SeqStats,
    calculate_seq_logprob (Some d) = Some stats
    /\ avg_logprob stats = arithmetic_mean (map tl_logprob cs)
    /\ avg_logprob stats * INR (List.length cs)
       = fold_right Rplus 0 (map tl_logprob cs)
    /\ avg_probability stats = Rpower 2 (avg_logprob stats)
    /\ num_tokens stats = Z.of_nat (List.length cs)
    /\ num_tokens stats
       = Z.of_nat (List.length (extract_token_probabilities (Some d))).
Proof.
  intros Hc Hne.
  eexists; split; [apply (calculate_nonempty d cs Hc Hne)|]; simpl.
  repeat split.
  - unfold arithmetic_mean; rewrite length_map.
    field. apply not_0_INR.
    destruct cs; [contradiction | discriminate].
  - rewrite (extract_nonempty d cs Hc), length_map; reflexivity.
Qed.

Lemma calculate_seq_logprob_mean_witness :
  exists stats : SeqStats,
    calculate_seq_logprob (Some sample_logprobs) = Some stats
    /\ avg_logprob stats = arithmetic_mean (map tl_logprob sample_content)
    /\ avg_logprob stats * INR (List.length sample_content)
       = fold_right Rplus 0 (map tl_logprob sample_content)
    /\ avg_probability stats = Rpower 2 (avg_logprob stats)
    /\ num_tokens stats = Z.of_nat (List.length sample_content)
    /\ num_tokens stats
       = Z.of_nat (List.length (extract_token_probabilities (Some sample_logprobs))).
Proof.
  apply (calculate_seq_logprob_mean sample_logprobs sample_content).
  - reflexivity.
  - discriminate.
Defined.

Lemma clamp_upper_iff (x : R) : clamp x (-700) 700 = 700 <-> x >= 700.
Proof.
  unfold clamp, Rmax, Rmin.
  destruct (Rle_dec x 700), (Rle_dec (-700) x); try destruct (Rle_dec (-700) 700);
    split; intros; lra.
Qed.

(** C2: on a non-empty log-probability sequence the calculator returns
    stats whose [avg_logprob] is the mean of the sequence and whose
    perplexity is [exp(clamp(-avg_logprob, -700, 700))], the exponential
    of the clamped negated mean; the perplexity equals [exp(700)] exactly
    when [-avg_logprob >= 700]. *)
Theorem calculate_seq_logprob_perplexity
  (d : ChoiceLogprobs) (cs : list TokenLogProb) :
  content d = Some cs -> cs <> [] ->
  exists stats : SeqStats,
    calculate_seq_logprob (Some d) = Some stats
    /\ avg_logprob stats = arithmetic_mean (map tl_logprob cs)
    /\ perplexity stats
       = exp (clamp (- arithmetic_mean (map tl_logprob cs)) (-700) 700)
    /\ perplexity stats = exp (clamp (- avg_logprob stats) (-700) 700)
    /\ (perplexity stats = exp 700 <-> - avg_logprob stats >= 700).
Proof.
  intros Hc Hne.
  eexists; split; [apply (calculate_nonempty d cs Hc Hne)|]; simpl.
  split; [reflexivity|]. split; [reflexivity|]. split; [reflexivity|].
  rewrite <- clamp_upper_iff.
  split; [apply exp_inv | intros ->; reflexivity].
Qed.

Lemma calculate_seq_logprob_perplexity_witness :
  exists stats : SeqStats,
    calculate_seq_logprob (Some steep_logprobs) = Some stats
    /\ avg_logprob stats = -800
    /\ perplexity stats = exp 700.
Proof.
  destruct (calculate_seq_logprob_perplexity steep_logprobs
              [ {| tl_token := str "x"; tl_logprob := -800 |} ])
    as (stats & Hcalc & Havg & _ & _ & Hclamped).
  - reflexivity.
  - discriminate.
  - assert (Hmean :
      arithmetic_mean
        (map tl_logprob [ {| tl_token := str "x"; tl_logprob := -800 |} ])
      = -800) by (unfold arithmetic_mean; simpl; lra).
    exists stats. split; [exact Hcalc|]. split.
    + rewrite Havg. exact Hmean.
    + apply Hclamped. rewrite Havg, Hmean. lra.
Defined.

(** On [steep_logprobs] the perplexity is [exp 700], not [exp 800]. *)
Lemma steep_perplexity :
  option_map perplexity (calculate_seq_logprob (Some steep_logprobs))
  = Some (exp 700).
Proof.
  rewrite (calculate_nonempty steep_logprobs _ eq_refl) by discriminate.
  simpl. f_equal. f_equal.
  apply clamp_upper_iff.
  unfold arithmetic_mean; simpl. lra.
Qed.

(** ** Log-probability to probability *)

Lemma extract_probability (d : option ChoiceLogprobs) (t : TokenStat) :
  In t (extract_token_probabilities d) -> probability t = pow2 (logprob t).
Proof.
  destruct d as [d|]; [|intros []].
  destruct (content d) as [cs|] eqn:Hc.
  - rewrite (extract_nonempty d cs Hc).
    intros Hin; apply in_map_iff in Hin as (c & <- & _); reflexivity.
  - unfold extract_token_probabilities, usable_content; rewrite Hc; intros [].
Qed.

Lemma ln_2_lt_1 : ln 2 < 1.
Proof.
  rewrite <- (ln_exp 1). apply ln_increasing; [lra|].
  pose proof (exp_ineq1 1); lra.
Qed.

Lemma pow2_underflow (l : R) : l <= -1075 -> b64 (pow2 l) = 0.
Proof.
  intros Hl. apply b64_underflow.
  rewrite Rabs_pos_eq by (left; apply pow2_pos).
  change (bpow (-1075)) with (pow2 (-1075)). destruct Hl as [Hlt | ->].
  - left; now apply pow2_lt.
  - right; reflexivity.
Qed.

Lemma pow2_rounds_to_1 (l : R) : - / 18014398509481984 <= l <= 0 -> b64 (pow2 l) = 1.
Proof.
  intros [Hlo Hhi]. apply b64_near_1. split; [|now apply pow2_le_1].
  change (-54)%Z with (- (54))%Z.
  rewrite bpow_opp, (bpow_nonneg_exp 54) by lia.
  change (2 ^ 54)%Z with 18014398509481984%Z.
  destruct (Req_dec l 0) as [-> | Hne].
  - rewrite pow2_0.
    assert (0 < / 18014398509481984) by (apply Rinv_0_lt_compat; lra). lra.
  - unfold pow2, Rpower.
    assert (Hy : l * ln 2 <> 0).
    { pose proof ln_lt_2. intros H0. apply Rmult_integral in H0. lra. }
    pose proof (exp_ineq1 (l * ln 2) Hy) as Hexp.
    pose proof ln_2_lt_1. pose proof ln_lt_2. nra.
Qed.

(** C7, as the claim states it, fails on doubles: the probabilities stored
    for the log-probabilities -9999 and -1075 are both 0, which is not in
    (0, 1] and not strictly increasing; and the one stored for [-1e-17] is
    1, as for 0. *)
Lemma stored_probability_underflow :
  map logprob (extract_token_probabilities (Some underflow_logprobs))
  = [-9999; -1075]
  /\ map stored_probability
       (extract_token_probabilities (Some underflow_logprobs)) = [0; 0]
  /\ ~ (0 < b64 (pow2 (-1075)) <= 1)
  /\ ~ (b64 (pow2 (-9999)) < b64 (pow2 (-1075)))
  /\ ~ (b64 (pow2 (-1e-17)) < b64 (pow2 0)).
Proof.
  assert (H1 : b64 (pow2 (-9999)) = 0) by (apply pow2_underflow; lra).
  assert (H2 : b64 (pow2 (-1075)) = 0) by (apply pow2_underflow; lra).
  assert (H3 : b64 (pow2 (-1e-17)) = 1) by (apply pow2_rounds_to_1; lra).
  assert (H4 : b64 (pow2 0) = 1) by (apply pow2_rounds_to_1; lra).
  split; [reflexivity|]. split.
  - rewrite (extract_nonempty underflow_logprobs _ eq_refl); simpl.
    unfold stored_probability; simpl.
    fold (pow2 (-9999)); fold (pow2 (-1075)). now rewrite H1, H2.
  - rewrite H1, H2, H3, H4. repeat split; lra.
Qed.

(** C7, amended: for two tokens of a sequence with log-probabilities
    [l1 <= l2 <= 0], the extractor stores a stat for each, at the token's
    position, with the token's log-probability; the derived probabilities
    lie in the closed interval [0, 1] and are ordered, [2^l1 <= 2^l2],
    both as the exact powers and as the doubles that store them. *)
Theorem stored_probability_range
  (d : ChoiceLogprobs) (cs : list TokenLogProb) (i j : nat)
  (c1 c2 : TokenLogProb) :
  content d = Some cs ->
  nth_error cs i = Some c1 -> nth_error cs j = Some c2 ->
  tl_logprob c1 <= tl_logprob c2 -> tl_logprob c2 <= 0 ->
  exists t1 t2 : TokenStat,
    nth_error (extract_token_probabilities (Some d)) i = Some t1
    /\ nth_error (extract_token_probabilities (Some d)) j = Some t2
    /\ logprob t1 = tl_logprob c1 /\ logprob t2 = tl_logprob c2
    /\ 0 <= stored_probability t1 <= stored_probability t2
    /\ stored_probability t2 <= 1
    /\ 0 <= probability t1 <= probability t2
    /\ probability t2 <= 1.
Proof.
  intros Hc Hi Hj Hle H0.
  exists (token_stat_of c1), (token_stat_of c2).
  rewrite (extract_nonempty d cs Hc), !nth_error_map, Hi, Hj.
  unfold stored_probability; simpl.
  fold (pow2 (tl_logprob c1)); fold (pow2 (tl_logprob c2)).
  assert (Hp1 : 0 < pow2 (tl_logprob c1)) by apply pow2_pos.
  assert (Hp12 : pow2 (tl_logprob c1) <= pow2 (tl_logprob c2))
    by now apply pow2_le.
  assert (Hp2 : pow2 (tl_logprob c2) <= 1) by now apply pow2_le_1.
  repeat (split; [reflexivity|]).
  split; [split|].
  - apply b64_nonneg; lra.
  - now apply b64_monotone.
  - split.
    + assert (Hb1 : b64 1 = 1)
        by (apply (b64_integer 1); unfold MAX_EXACT_INT; simpl; lia).
      apply Rle_trans with (b64 1);
        [now apply b64_monotone | right; exact Hb1].
    + split; [split; [left; exact Hp1 | exact Hp12] | exact Hp2].
Qed.

Lemma stored_probability_range_witness :
  exists t1 t2 : TokenStat,
    nth_error (extract_token_probabilities (Some underflow_logprobs)) 0
    = Some t1
    /\ nth_error (extract_token_probabilities (Some underflow_logprobs)) 1
       = Some t2
    /\ logprob t1 = -9999 /\ logprob t2 = -1075
    /\ 0 <= stored_probability t1 <= stored_probability t2
    /\ stored_probability t2 <= 1.
Proof.
  destruct (stored_probability_range underflow_logprobs
              [ {| tl_token := str "a"; tl_logprob := -9999 |};
                {| tl_token := str "b"; tl_logprob := -1075 |} ]
              0 1
              {| tl_token := str "a"; tl_logprob := -9999 |}
              {| tl_token := str "b"; tl_logprob := -1075 |})
    as (t1 & t2 & Hn1 & Hn2 & Hl1 & Hl2 & Hrange & Hone & _ & _).
  - reflexivity.
  - reflexivity.
  - reflexivity.
  - simpl; lra.
  - simpl; lra.
  - exists t1, t2. repeat split; try assumption; apply Hrange.
Defined.

(** ** Confidence bucketing *)

Lemma label_high (p : R) : p >= 0.8 -> get_confidence_label p = (HIGH, GREEN).
Proof.
  intros H; unfold get_confidence_label.
  destruct (Rge_dec p 0.8); [reflexivity | lra].
Qed.

Lemma label_med (p : R) :
  0.5 <= p < 0.8 -> get_confidence_label p = (MED, YELLOW).
Proof.
  intros H; unfold get_confidence_label.
  destruct (Rge_dec p 0.8); [lra|].
  destruct (Rge_dec p 0.5); [reflexivity | lra].
Qed.

Lemma label_low (p : R) :
  0.2 <= p < 0.5 -> get_confidence_label p = (LOW, RED).
Proof.
  intros H; unfold get_confidence_label.
  destruct (Rge_dec p 0.8); [lra|].
  destruct (Rge_dec p 0.5); [lra|].
  destruct (Rge_dec p 0.2); [reflexivity | lra].
Qed.

Lemma label_vlow (p : R) : p < 0.2 -> get_confidence_label p = (VLOW, RED).
Proof.
  intros H; unfold get_confidence_label.
  destruct (Rge_dec p 0.8); [lra|].
  destruct (Rge_dec p 0.5); [lra|].
  destruct (Rge_dec p 0.2); [lra | reflexivity].
Qed.

(** Every real falls in exactly one of the four ranges. *)
Lemma bucket_cases (p : R) :
  p >= 0.8 \/ 0.5 <= p < 0.8 \/ 0.2 <= p < 0.5 \/ p < 0.2.
Proof. lra. Qed.

Lemma labels_distinct : NoDup [HIGH; MED; LOW; VLOW].
Proof.
  repeat constructor; simpl; intuition discriminate.
Qed.

Lemma colors_distinct : NoDup [GREEN; YELLOW; RED].
Proof.
  repeat constructor; simpl; intuition discriminate.
Qed.

Ltac bucket p :=
  destruct (bucket_cases p) as [Hb | [Hb | [Hb | Hb]]];
  [ rewrite (label_high p Hb) | rewrite (label_med p Hb)
  | rewrite (label_low p Hb) | rewrite (label_vlow p Hb) ].

(** C3: every probability [p] in [0,1] gets exactly one of the labels
    HIGH, MED, LOW, VLOW (the four are distinct), with inclusive lower
    bounds: HIGH exactly when [p >= 0.8], MED exactly when
    [0.5 <= p < 0.8], LOW exactly when [0.2 <= p < 0.5], VLOW exactly when
    [p < 0.2]; so 0.8 is HIGH, 0.5 is MED and 0.2 is LOW. *)
Theorem get_confidence_label_buckets (p : R) :
  0 <= p <= 1 ->
  In (fst (get_confidence_label p)) [HIGH; MED; LOW; VLOW]
  /\ NoDup [HIGH; MED; LOW; VLOW]
  /\ (fst (get_confidence_label p) = HIGH <-> p >= 0.8)
  /\ (fst (get_confidence_label p) = MED <-> 0.5 <= p < 0.8)
  /\ (fst (get_confidence_label p) = LOW <-> 0.2 <= p < 0.5)
  /\ (fst (get_confidence_label p) = VLOW <-> p < 0.2)
  /\ fst (get_confidence_label 0.8) = HIGH
  /\ fst (get_confidence_label 0.5) = MED
  /\ fst (get_confidence_label 0.2) = LOW.
Proof.
  intros _.
  split; [bucket p; simpl; tauto|].
  split; [exact labels_distinct|].
  assert (Hiff :
    (fst (get_confidence_label p) = HIGH <-> p >= 0.8)
    /\ (fst (get_confidence_label p) = MED <-> 0.5 <= p < 0.8)
    /\ (fst (get_confidence_label p) = LOW <-> 0.2 <= p < 0.5)
    /\ (fst (get_confidence_label p) = VLOW <-> p < 0.2)).
  { bucket p; simpl;
      (split; [|split; [|split]]);
      (split; [intros Hlab; (discriminate Hlab || exact Hb)
              | intros Hp; (reflexivity || lra)]). }
  destruct Hiff as (Hh & Hm & Hl & Hv).
  split; [exact Hh|]. split; [exact Hm|]. split; [exact Hl|]. split; [exact Hv|].
  split; [|split].
  - rewrite label_high by lra; reflexivity.
  - rewrite label_med by lra; reflexivity.
  - rewrite label_low by lra; reflexivity.
Qed.

Lemma get_confidence_label_buckets_witness :
  fst (get_confidence_label 0.5) = MED <-> 0.5 <= 0.5 < 0.8.
Proof.
  assert (Hrange : 0 <= 0.5 <= 1) by lra.
  destruct (get_confidence_label_buckets 0.5 Hrange) as (_ & _ & _ & Hmed & _).
  exact Hmed.
Defined.

(** C10: bucketing is defined on every real, not only on [0,1]: above 1
    it answers HIGH, as for any [p >= 0.8]; below 0 it answers VLOW; and on
    every input the answer is one of four distinct (label, color) pairs. *)
Theorem get_confidence_label_total (p : R) :
  (p > 1 -> get_confidence_label p = (HIGH, GREEN))
  /\ (p > 1 -> forall q : R, q >= 0.8 ->
        get_confidence_label p = get_confidence_label q)
  /\ (p < 0 -> get_confidence_label p = (VLOW, RED))
  /\ In (get_confidence_label p)
        [(HIGH, GREEN); (MED, YELLOW); (LOW, RED); (VLOW, RED)]
  /\ NoDup [(HIGH, GREEN); (MED, YELLOW); (LOW, RED); (VLOW, RED)].
Proof.
  split; [|split; [|split; [|split]]].
  - intros Hp; apply label_high; lra.
  - intros Hp q Hq; rewrite (label_high q Hq); apply label_high; lra.
  - intros Hp; apply label_vlow; lra.
  - bucket p; simpl; tauto.
  - repeat constructor; simpl; intuition discriminate.
Qed.

Lemma get_confidence_label_total_witness :
  get_confidence_label 2 = (HIGH, GREEN)
  /\ get_confidence_label 2 = get_confidence_label 0.8
  /\ get_confidence_label (-1) = (VLOW, RED).
Proof.
  destruct (get_confidence_label_total 2) as (Habove & Hsame & _).
  destruct (get_confidence_label_total (-1)) as (_ & _ & Hbelow & _).
  split; [apply Habove; lra|].
  split; [apply Hsame; lra | apply Hbelow; lra].
Defined.

(** C6: the color codes are not two but three: green for HIGH, yellow for
    MED, and one red shared by LOW and VLOW, whose labels differ; for
    [0.2 <= p1 < 0.5] and [p2 < 0.2] the color of [p1] is the color of
    [p2]. *)
Theorem get_confidence_label_colors (p1 p2 : R) :
  0.2 <= p1 < 0.5 -> p2 < 0.2 ->
  snd (get_confidence_label p1) = snd (get_confidence_label p2)
  /\ fst (get_confidence_label p1) <> fst (get_confidence_label p2)
  /\ snd (get_confidence_label p1) = RED
  /\ (forall p : R, p >= 0.8 -> snd (get_confidence_label p) = GREEN)
  /\ (forall p : R, 0.5 <= p < 0.8 -> snd (get_confidence_label p) = YELLOW)
  /\ (forall p : R, p < 0.5 -> snd (get_confidence_label p) = RED)
  /\ NoDup [GREEN; YELLOW; RED]
  /\ ~ (exists c1 c2 : pystr, forall p : R,
          snd (get_confidence_label p) = c1
          \/ snd (get_confidence_label p) = c2).
Proof.
  intros H1 H2.
  rewrite (label_low p1 H1), (label_vlow p2 H2); simpl.
  split; [reflexivity|].
  split; [discriminate|].
  split; [reflexivity|].
  split; [intros p Hp; now rewrite label_high|].
  split; [intros p Hp; now rewrite label_med|].
  split.
  { intros p Hp. destruct (Rlt_dec p 0.2).
    - now rewrite label_vlow.
    - rewrite label_low; [reflexivity | lra]. }
  split; [exact colors_distinct|].
  intros (c1 & c2 & Hall).
  pose proof (Hall 0.9) as Hg; rewrite label_high in Hg by lra.
  pose proof (Hall 0.6) as Hy; rewrite label_med in Hy by lra.
  pose proof (Hall 0.1) as Hr; rewrite label_vlow in Hr by lra.
  simpl in Hg, Hy, Hr.
  destruct Hg as [<- | <-], Hy as [Hy | Hy], Hr as [Hr | Hr];
    try discriminate Hy; try discriminate Hr;
    rewrite <- Hy in Hr; discriminate Hr.
Qed.

Lemma get_confidence_label_colors_witness :
  snd (get_confidence_label 0.3) = snd (get_confidence_label 0.1)
  /\ fst (get_confidence_label 0.3) <> fst (get_confidence_label 0.1).
Proof.
  assert (H1 : 0.2 <= 0.3 < 0.5) by lra.
  assert (H2 : 0.1 < 0.2) by lra.
  destruct (get_confidence_label_colors 0.3 0.1 H1 H2) as (Hcol & Hlab & _).
  split; [exact Hcol | exact Hlab].
Defined.

(** ** Bars *)

Lemma str_mul_char (c : codepoint) (n : Z) :
  str_mul [c] n = repeat c (Z.to_nat n).
Proof.
  unfold str_mul.
  induction (Z.to_nat n) as [|k IH]; simpl; [reflexivity | now rewrite IH].
Qed.

Lemma float_of_int_exact (W : Z) :
  (Z.abs W <= MAX_EXACT_INT)%Z -> float_of_int W = IZR W.
Proof. apply b64_integer. Qed.

(** The double product of a probability and an exact width stays between
    0 and the width. *)
Lemma float_product_range (p : R) (W : Z) :
  0 <= p <= 1 -> (0 <= W <= MAX_EXACT_INT)%Z ->
  0 <= float_mul p (float_of_int W) <= IZR W.
Proof.
  intros Hp HW.
  assert (HWr : 0 <= IZR W) by (apply IZR_le; lia).
  rewrite float_of_int_exact by lia.
  unfold float_mul. split.
  - apply b64_nonneg; nra.
  - rewrite <- (b64_integer W) at 2 by lia.
    apply b64_monotone; nra.
Qed.

Lemma filled_range (p : R) (W : Z) :
  0 <= p <= 1 -> (0 <= W <= MAX_EXACT_INT)%Z ->
  (0 <= Zfloor (float_mul p (float_of_int W)) <= W)%Z.
Proof.
  intros Hp HW.
  destruct (float_product_range p W Hp HW) as [Hlo Hhi].
  destruct (Zfloor_bound (float_mul p (float_of_int W))) as [Hflo _].
  split.
  - apply Zfloor_lub; simpl; lra.
  - apply le_IZR; lra.
Qed.

Lemma print_bar_unit (p : R) (W : Z) :
  0 <= p <= 1 -> (0 <= W <= MAX_EXACT_INT)%Z ->
  print_bar p W =
    repeat FULL_BLOCK (Z.to_nat (Zfloor (float_mul p (float_of_int W))))
    ++ repeat LIGHT_SHADE
         (Z.to_nat (W - Zfloor (float_mul p (float_of_int W)))).
Proof.
  intros Hp HW; unfold print_bar; cbv zeta.
  destruct (float_product_range p W Hp HW) as [Hlo _].
  rewrite py_int_nonneg by exact Hlo.
  now rewrite !str_mul_char.
Qed.

Lemma print_bar_length (p : R) (W : Z) :
  0 <= p <= 1 -> (0 <= W <= MAX_EXACT_INT)%Z ->
  Z.of_nat (List.length (print_bar p W)) = W.
Proof.
  intros Hp HW.
  rewrite (print_bar_unit p W Hp HW), length_app, !repeat_length.
  pose proof (filled_range p W Hp HW); lia.
Qed.

(** ** What the renderer prints *)

Lemma run_bind {A B : Type} (svc : service) (p : prog A) (f : A -> prog B) :
  run svc (bind p f) =
    match run svc p with
    | (tr, Returned a) => let (tr', o) := run svc (f a) in (tr ++ tr', o)
    | (tr, Exited code) => (tr, Exited code)
    | (tr, Uncaught exn) => (tr, Uncaught exn)
    end.
Proof.
  induction p as [a | line k IH | key k IH | c r k IH | code | exn]; simpl.
  - destruct (run svc (f a)); reflexivity.
  - rewrite IH. destruct (run svc k) as [tr [a | code | exn]]; try reflexivity.
    destruct (run svc (f a)); reflexivity.
  - rewrite IH.
    destruct (run svc (k _)) as [tr [a | code | exn]]; try reflexivity.
    destruct (run svc (f a)); reflexivity.
  - destruct (svc c r) as [resp | exn]; [|reflexivity].
    rewrite IH.
    destruct (run svc (k resp)) as [tr [a | code | exn]]; try reflexivity.
    destruct (run svc (f a)); reflexivity.
  - reflexivity.
  - reflexivity.
Qed.

Lemma run_print_then {B : Type} (svc : service) (line : pystr) (q : prog B) :
  run svc (bind (print line) (fun _ => q)) =
    let (tr, o) := run svc q in (EvPrint line :: tr, o).
Proof. reflexivity. Qed.

Lemma run_for_each_print {A : Type} (svc : service) (xs : list A) (g : A -> pystr) :
  run svc (for_each xs (fun x => print (g x)))
  = (map (fun x => EvPrint (g x)) xs, Returned tt).
Proof.
  induction xs as [|x xs IH]; simpl; [reflexivity|].
  now rewrite IH.
Qed.

Section RendererFacts.

Context {fmt : PyFormat}.

Lemma print_token_analysis_run
  (svc : service) (prompt model : pystr) (temperature : R)
  (completion : option pystr) (tokens : list TokenStat)
  (seq_stats : option SeqStats) :
  run svc (print_token_analysis prompt model temperature completion
             tokens seq_stats)
  = (map EvPrint
       (header_lines prompt model temperature
        ++ aggregate_lines seq_stats
        ++ table_head_lines
        ++ map token_line tokens
        ++ completion_lines completion),
     Returned tt).
Proof.
  unfold print_token_analysis.
  rewrite !run_print_then.
  rewrite run_bind.
  assert (Hagg :
    run svc match seq_stats with
            | Some stats =>
                bind (print (LF :: bold
                               ++ str "Overall Confidence (Seq-Logprob):"
                               ++ reset))
                     (fun _ => print (overall_line stats))
            | None => Ret tt
            end
    = (map EvPrint (aggregate_lines seq_stats), Returned tt)).
  { destruct seq_stats; reflexivity. }
  rewrite Hagg; clear Hagg.
  rewrite !run_print_then.
  rewrite run_bind, run_for_each_print.
  rewrite !run_print_then.
  unfold header_lines, table_head_lines, completion_lines.
  cbn [run print map app].
  rewrite map_app; cbn [map].
  rewrite map_app, map_map.
  reflexivity.
Qed.

End RendererFacts.

Section RendererClaims.

Context {fmt : PyFormat}.

(** C5: for a probability [p] (in [0,1]) and a bar width [W] (not
    negative, and small enough to be a double) the bar is [floor(p * W)]
    filled characters, [p * W] being the double product that the code
    computes, followed by [W - floor(p * W)] empty ones, [W] characters in
    all; the aggregate line is drawn with [W = 20], the line of a token
    with [W = 15]. *)
Theorem print_bar_shape (p : R) (W : Z) :
  0 <= p <= 1 -> (0 <= W <= MAX_EXACT_INT)%Z ->
  print_bar p W =
    repeat FULL_BLOCK (Z.to_nat (Zfloor (float_mul p (float_of_int W))))
    ++ repeat LIGHT_SHADE
         (Z.to_nat (W - Zfloor (float_mul p (float_of_int W))))
  /\ (0 <= Zfloor (float_mul p (float_of_int W)) <= W)%Z
  /\ Z.of_nat (List.length (print_bar p W)) = W
  /\ (forall stats : SeqStats,
        overall_line stats =
          str "  " ++ snd (get_confidence_label (avg_probability stats))
          ++ print_bar (avg_probability stats) 20
          ++ reset ++ str " "
          ++ format_pct1 (avg_probability stats) ++ str " avg | "
          ++ str "logprob: " ++ format_f4 (avg_logprob stats) ++ str " | "
          ++ str "perplexity: " ++ format_f2 (perplexity stats))
  /\ (forall t : TokenStat,
        token_line t =
          str "  " ++ ljust 15 (token_display (token t)) ++ str " "
          ++ snd (get_confidence_label (probability t))
          ++ rjust 7 (format_pct1 (probability t)) ++ reset ++ str " "
          ++ rjust 10 (format_f4 (logprob t)) ++ str "  "
          ++ snd (get_confidence_label (probability t))
          ++ print_bar (probability t) 15 ++ reset).
Proof.
  intros Hp HW.
  split; [exact (print_bar_unit p W Hp HW)|].
  split; [exact (filled_range p W Hp HW)|].
  split; [exact (print_bar_length p W Hp HW)|].
  split.
  - intros stats; unfold overall_line.
    destruct (get_confidence_label (avg_probability stats)); reflexivity.
  - intros t; unfold token_line.
    destruct (get_confidence_label (probability t)); reflexivity.
Qed.

(** Outside [0,1] the bar is no longer [W] characters wide. *)
Lemma print_bar_overlong : List.length (print_bar 1.5 20) = 30%nat.
Proof.
  unfold print_bar; cbv zeta.
  rewrite float_of_int_exact by (unfold MAX_EXACT_INT; simpl; lia).
  unfold float_mul.
  replace (1.5 * 20) with (IZR 30) by lra.
  rewrite b64_integer by (unfold MAX_EXACT_INT; simpl; lia).
  rewrite py_int_nonneg by lra. rewrite ZfloorZ.
  reflexivity.
Qed.

Lemma usable_content_none (logprobs_data : option ChoiceLogprobs) :
  absent_or_empty logprobs_data -> usable_content logprobs_data = None.
Proof.
  destruct logprobs_data as [d|]; simpl; [|reflexivity].
  intros [-> | ->]; reflexivity.
Qed.

(** What [analyze_prompt] does, by the answer of the service. *)
Lemma analyze_prompt_run
  (svc : service) (client : Client) (prompt model : pystr) (temperature : R) :
  let request := completion_request prompt temperature model in
  run svc (analyze_prompt client prompt model temperature) =
    match svc client request with
    | inr exn => ([EvRequest client request], Uncaught exn)
    | inl response =>
        match choices response with
        | [] => ([EvRequest client request], Uncaught (str "IndexError"))
        | c :: _ =>
            (EvRequest client request
               :: map EvPrint
                    (header_lines prompt model temperature
                     ++ aggregate_lines
                          (calculate_seq_logprob (choice_logprobs c))
                     ++ table_head_lines
                     ++ map token_line
                          (extract_token_probabilities (choice_logprobs c))
                     ++ completion_lines (message_content c)),
             Returned tt)
        end
    end.
Proof.
  intros request.
  unfold analyze_prompt, get_completion_with_logprobs; fold request.
  cbn [bind run].
  destruct (svc client request) as [response | exn]; [|reflexivity].
  destruct (choices response) as [|c rest]; [reflexivity|].
  cbn [bind logprobs completion].
  now rewrite print_token_analysis_run.
Qed.

(** C9: for an absent or empty log-probability sequence the extractor
    returns the empty list, the calculator returns nothing, and the
    renderer prints the header, the head of the token table with no row
    under it, and the completion text, without the aggregate-confidence
    section; the whole analysis then ends normally. *)
Theorem empty_logprobs_pipeline
  (svc : service) (logprobs_data : option ChoiceLogprobs)
  (prompt model : pystr) (temperature : R) (completion : option pystr) :
  absent_or_empty logprobs_data ->
  extract_token_probabilities logprobs_data = []
  /\ calculate_seq_logprob logprobs_data = None
  /\ run svc (print_token_analysis prompt model temperature completion
                (extract_token_probabilities logprobs_data)
                (calculate_seq_logprob logprobs_data))
     = (map EvPrint
          (header_lines prompt model temperature
           ++ table_head_lines
           ++ completion_lines completion),
        Returned tt)
  /\ (forall (client : Client) (response : Response) (rest : list Choice),
        svc client (completion_request prompt temperature model)
          = inl response ->
        choices response =
          {| message_content := completion;
             choice_logprobs := logprobs_data |} :: rest ->
        run svc (analyze_prompt client prompt model temperature)
        = (EvRequest client (completion_request prompt temperature model)
             :: map EvPrint
                  (header_lines prompt model temperature
                   ++ table_head_lines
                   ++ completion_lines completion),
           Returned tt)).
Proof.
  intros Hempty.
  assert (Hext : extract_token_probabilities logprobs_data = []).
  { unfold extract_token_probabilities.
    now rewrite (usable_content_none _ Hempty). }
  assert (Hcalc : calculate_seq_logprob logprobs_data = None).
  { unfold calculate_seq_logprob.
    now rewrite (usable_content_none _ Hempty). }
  split; [exact Hext|]. split; [exact Hcalc|]. split.
  - rewrite print_token_analysis_run, Hext, Hcalc; reflexivity.
  - intros client response rest Hsvc Hchoices.
    rewrite analyze_prompt_run; cbv zeta.
    rewrite Hsvc, Hchoices; cbn [choice_logprobs message_content].
    rewrite Hext, Hcalc; reflexivity.
Qed.

End RendererClaims.

(** ** The entry point *)

Lemma requests_prints (lines : list pystr) : requests (map EvPrint lines) = [].
Proof. induction lines as [|l ls IH]; [reflexivity | exact IH]. Qed.

Section MainClaims.

Context {fmt : PyFormat}.

Lemma main_placeholder :
  main PLACEHOLDER = bind (print WARNING) (fun _ => SysExit 1).
Proof.
  unfold main.
  destruct (str_eq_dec PLACEHOLDER PLACEHOLDER) as [_ | Hne];
    [reflexivity | now contradiction Hne].
Qed.

Lemma main_configured (key : pystr) :
  key <> PLACEHOLDER ->
  main key =
    NewClient key (fun client =>
      bind (print INITIALIZED) (fun _ =>
        analyze_prompt client PROMPT (str "gpt-4o-mini") 1.1)).
Proof.
  intros Hne; unfold main.
  destruct (str_eq_dec key PLACEHOLDER) as [Heq | _];
    [now contradiction Hne | reflexivity].
Qed.

(** C8: with the placeholder as credential the entry point prints the
    warning and exits with status 1, before any client is constructed or
    any request is sent (and the constant ships as the placeholder);
    with any other credential it constructs the client and runs the one
    fixed analysis, sending exactly one request, the fixed one. *)
Theorem main_credential_check (svc : service) (key : pystr) :
  (run svc (main PLACEHOLDER) = ([EvPrint WARNING], Exited 1)
   /\ exit_status (snd (run svc (main PLACEHOLDER))) <> 0%Z
   /\ filter is_client (fst (run svc (main PLACEHOLDER))) = []
   /\ filter is_request (fst (run svc (main PLACEHOLDER))) = []
   /\ OPENAI_API_KEY = PLACEHOLDER)
  /\ (key <> PLACEHOLDER ->
      main key =
        NewClient key (fun client =>
          bind (print INITIALIZED) (fun _ =>
            analyze_prompt client PROMPT (str "gpt-4o-mini") 1.1))
      /\ run svc (main key) =
           (let (tr, o) :=
              run svc (analyze_prompt (mkClient key) PROMPT
                         (str "gpt-4o-mini") 1.1) in
            (EvClient key :: EvPrint INITIALIZED :: tr, o))
      /\ requests (fst (run svc (main key))) = [MAIN_REQUEST]).
Proof.
  split.
  - rewrite main_placeholder.
    repeat split; discriminate.
  - intros Hne.
    split; [exact (main_configured key Hne)|].
    assert (Hrun :
      run svc (main key) =
        (let (tr, o) :=
           run svc (analyze_prompt (mkClient key) PROMPT
                      (str "gpt-4o-mini") 1.1) in
         (EvClient key :: EvPrint INITIALIZED :: tr, o))).
    { rewrite (main_configured key Hne); cbn [run].
      rewrite run_print_then.
      destruct (run svc (analyze_prompt _ _ _ _)); reflexivity. }
    split; [exact Hrun|].
    rewrite Hrun, analyze_prompt_run; cbv zeta.
    fold MAIN_REQUEST.
    destruct (svc (mkClient key) MAIN_REQUEST) as [response | exn];
      [|reflexivity].
    destruct (choices response) as [|c rest]; [reflexivity|].
    cbn [fst requests flat_map app].
    fold (requests (map EvPrint
      (header_lines PROMPT (str "gpt-4o-mini") 1.1
       ++ aggregate_lines (calculate_seq_logprob (choice_logprobs c))
       ++ table_head_lines
       ++ map token_line (extract_token_probabilities (choice_logprobs c))
       ++ completion_lines (message_content c)))).
    now rewrite requests_prints.
Qed.

End MainClaims.

(** ** Closed instances of the pipeline and of the entry point *)

Lemma print_bar_shape_witness :
  print_bar double_0_6 15 = repeat FULL_BLOCK 9 ++ repeat LIGHT_SHADE 6
  /\ Z.of_nat (List.length (print_bar double_0_6 15)) = 15%Z.
Proof.
  assert (Hp : 0 <= double_0_6 <= 1) by (unfold double_0_6; lra).
  assert (HW : (0 <= 15 <= MAX_EXACT_INT)%Z)
    by (unfold MAX_EXACT_INT; lia).
  destruct (@print_bar_shape mark_format double_0_6 15 Hp HW)
    as (Hshape & _ & Hlen & _).
  split; [|exact Hlen].
  rewrite Hshape.
  rewrite float_of_int_exact by (unfold MAX_EXACT_INT; simpl; lia).
  unfold float_mul. rewrite b64_double_0_6_times_15.
  rewrite (ZfloorZ 9). reflexivity.
Defined.

Lemma empty_logprobs_pipeline_witness :
  extract_token_probabilities None = []
  /\ calculate_seq_logprob None = None
  /\ run bare_service
       (@analyze_prompt mark_format (mkClient (str "k")) (str "Capital?")
          (str "m") 0)
     = (EvRequest (mkClient (str "k")) (completion_request (str "Capital?") 0 (str "m"))
          :: map EvPrint
               (@header_lines mark_format (str "Capital?") (str "m") 0
                ++ table_head_lines
                ++ completion_lines (Some (str "Paris"))),
        Returned tt).
Proof.
  destruct (@empty_logprobs_pipeline mark_format bare_service None
              (str "Capital?") (str "m") 0 (Some (str "Paris")) I)
    as (Hext & Hcalc & _ & Hrun).
  split; [exact Hext|]. split; [exact Hcalc|].
  apply (Hrun (mkClient (str "k"))
           {| choices := [ {| message_content := Some (str "Paris");
                              choice_logprobs := None |} ] |} []);
    reflexivity.
Defined.

Lemma main_credential_check_witness :
  requests (fst (run bare_service (@main mark_format (str "sk-demo"))))
  = [MAIN_REQUEST].
Proof.
  destruct (@main_credential_check mark_format bare_service (str "sk-demo"))
    as (_ & Hconfigured).
  apply Hconfigured.
  discriminate.
Defined.

(** * Further properties *)

(** ** Bars outside the unit interval *)

Lemma py_int_nonneg_iff (x : R) : (0 <= py_int x)%Z <-> -1 < x.
Proof.
  unfold py_int; destruct (Rlt_dec x 0) as [Hneg | Hpos].
  - destruct (Zceil_bound x) as [Hlo Hhi]. split.
    + intros H; apply IZR_le in H; lra.
    + intros H.
      assert (Hc : (-1 < Zceil x)%Z) by (apply lt_IZR; lra).
      lia.
  - destruct (Zfloor_bound x) as [Hlo Hhi]. split.
    + intros _; lra.
    + intros _; apply Zfloor_lub; lra.
Qed.

Lemma py_int_le_iff (x : R) (W : Z) :
  (0 <= W)%Z -> (py_int x <= W)%Z <-> x < IZR W + 1.
Proof.
  intros HW; apply IZR_le in HW.
  unfold py_int; destruct (Rlt_dec x 0) as [Hneg | Hpos].
  - destruct (Zceil_bound x) as [Hlo Hhi]. split.
    + intros _; lra.
    + intros _.
      assert (Hc : (Zceil x < 1)%Z) by (apply lt_IZR; lra).
      apply le_IZR in HW; lia.
  - destruct (Zfloor_bound x) as [Hlo Hhi]. split.
    + intros H; apply IZR_le in H; lra.
    + intros H.
      assert (Hc : (Zfloor x < W + 1)%Z) by (apply lt_IZR; rewrite plus_IZR; lra).
      lia.
Qed.

Lemma print_bar_cells (p : R) (W : Z) :
  print_bar p W =
    repeat FULL_BLOCK (Z.to_nat (py_int (float_mul p (float_of_int W))))
    ++ repeat LIGHT_SHADE
         (Z.to_nat (W - py_int (float_mul p (float_of_int W)))).
Proof. unfold print_bar; cbv zeta; now rewrite !str_mul_char. Qed.

Lemma count_block_repeat (c d : codepoint) (n : nat) :
  count_occ N.eq_dec (repeat c n) d = if N.eq_dec c d then n else 0%nat.
Proof.
  destruct (N.eq_dec c d) as [-> | Hne].
  - apply count_occ_repeat_eq; reflexivity.
  - apply count_occ_repeat_neq; congruence.
Qed.

Lemma filled_cells_bar (p : R) (W : Z) :
  filled_cells (print_bar p W)
  = Z.to_nat (py_int (float_mul p (float_of_int W))).
Proof.
  unfold filled_cells; rewrite print_bar_cells, count_occ_app, !count_block_repeat.
  destruct (N.eq_dec FULL_BLOCK FULL_BLOCK) as [_ | Hne]; [|contradiction].
  destruct (N.eq_dec LIGHT_SHADE FULL_BLOCK) as [Heq | _]; [discriminate | lia].
Qed.

(** Truncation keeps a float between the integers that bound it. *)
Lemma py_int_between (x : R) (a b : Z) :
  IZR a <= x <= IZR b -> (a <= py_int x <= b)%Z.
Proof.
  intros [Ha Hb]. unfold py_int.
  destruct (Rlt_dec x 0) as [Hneg | Hpos].
  - destruct (Zceil_bound x) as [Hlo Hhi]. split.
    + apply le_IZR; lra.
    + assert (Hc : (Zceil x < b + 1)%Z)
        by (apply lt_IZR; rewrite plus_IZR; lra).
      lia.
  - destruct (Zfloor_bound x) as [Hlo Hhi]. split.
    + now apply Zfloor_lub.
    + apply le_IZR; lra.
Qed.

(** X1: for a value of [prob] between -1 and 2 and a width [W] between 0
    and [2^52], the bar is at least [W] and at most [2 * W] characters
    long, and it is exactly [W] characters long if and only if the double
    product [prob * W] lies strictly between -1 and [W + 1]. *)
Theorem print_bar_never_short (p : R) (W : Z) :
  -1 <= p <= 2 -> (0 <= W <= 4503599627370496)%Z ->
  (W <= Z.of_nat (List.length (print_bar p W)) <= 2 * W)%Z
  /\ (Z.of_nat (List.length (print_bar p W)) = W
      <-> -1 < float_mul p (float_of_int W) < IZR W + 1).
Proof.
  intros Hp HW.
  assert (HW0 : (0 <= W)%Z) by lia.
  assert (HWr : 0 <= IZR W) by (apply IZR_le; lia).
  pose proof (py_int_nonneg_iff (float_mul p (float_of_int W))) as Hlo.
  pose proof (py_int_le_iff (float_mul p (float_of_int W)) W HW0) as Hhi.
  assert (Hrange :
    (- W <= py_int (float_mul p (float_of_int W)) <= 2 * W)%Z).
  { apply py_int_between.
    rewrite float_of_int_exact by (unfold MAX_EXACT_INT; lia).
    unfold float_mul. split.
    - rewrite <- (b64_integer (- W)) by (unfold MAX_EXACT_INT; lia).
      apply b64_monotone. rewrite opp_IZR. nra.
    - rewrite <- (b64_integer (2 * W)) by (unfold MAX_EXACT_INT; lia).
      apply b64_monotone. rewrite mult_IZR. nra. }
  rewrite print_bar_cells, length_app, !repeat_length.
  split; [lia|]. split.
  - intros Hlen.
    assert (H0 : (0 <= py_int (float_mul p (float_of_int W)))%Z) by lia.
    assert (H1 : (py_int (float_mul p (float_of_int W)) <= W)%Z) by lia.
    split; [now apply Hlo | now apply Hhi].
  - intros [H0 H1]. apply Hlo in H0. apply Hhi in H1. lia.
Qed.

Lemma print_bar_never_short_witness :
  (20 <= Z.of_nat (List.length (print_bar 1.5 20)) <= 2 * 20)%Z.
Proof.
  assert (Hp : -1 <= 1.5 <= 2) by lra.
  assert (HW : (0 <= 20 <= 4503599627370496)%Z) by lia.
  destruct (print_bar_never_short 1.5 20 Hp HW) as (Hlen & _).
  exact Hlen.
Defined.

(** X2: for probabilities that are not negative and a width that is not
    negative, a larger probability never shows fewer filled cells. *)
Theorem print_bar_filled_monotone (p q : R) (W : Z) :
  0 <= p <= q -> (0 <= W)%Z ->
  (filled_cells (print_bar p W) <= filled_cells (print_bar q W))%nat.
Proof.
  intros [Hp Hpq] HW.
  assert (HWf : 0 <= float_of_int W)
    by (apply b64_nonneg, IZR_le; exact HW).
  assert (H0 : 0 <= float_mul p (float_of_int W))
    by (apply b64_nonneg; nra).
  assert (Hle : float_mul p (float_of_int W) <= float_mul q (float_of_int W))
    by (apply b64_monotone; nra).
  rewrite !filled_cells_bar, !py_int_nonneg by lra.
  apply Z2Nat.inj_le.
  - apply Zfloor_lub; simpl; lra.
  - apply Zfloor_lub; simpl; lra.
  - now apply Zfloor_le.
Qed.

Lemma print_bar_filled_monotone_witness :
  (filled_cells (print_bar 0.25 15) <= filled_cells (print_bar 0.75 15))%nat.
Proof.
  apply print_bar_filled_monotone; [lra | lia].
Defined.

(** X4: for a probability in [0,1] a width that is zero or negative, and
    not below [-2^53], gives the empty string. *)
Theorem print_bar_nonpositive_width (p : R) (W : Z) :
  0 <= p <= 1 -> (- MAX_EXACT_INT <= W <= 0)%Z -> print_bar p W = [].
Proof.
  intros Hp HW.
  assert (HWr : IZR W <= 0) by (apply IZR_le; lia).
  rewrite print_bar_cells.
  assert (Hint : (W <= py_int (float_mul p (float_of_int W)) <= 0)%Z).
  { apply py_int_between.
    rewrite float_of_int_exact by lia.
    unfold float_mul. split.
    - rewrite <- (b64_integer W) at 1 by lia.
      apply b64_monotone; nra.
    - rewrite <- b64_0. apply b64_monotone; nra. }
  replace (Z.to_nat (py_int (float_mul p (float_of_int W)))) with 0%nat by lia.
  replace (Z.to_nat (W - py_int (float_mul p (float_of_int W))))
    with 0%nat by lia.
  reflexivity.
Qed.

Lemma print_bar_nonpositive_width_witness : print_bar 0.5 (-4) = [].
Proof.
  apply print_bar_nonpositive_width; [lra | unfold MAX_EXACT_INT; lia].
Defined.

(** Below [-2^53] the width need not be a double, and the bar need not be
    empty: [float(-(2^53 + 3))] is [-(2^53 + 4)], which leaves one empty
    cell. *)
Lemma print_bar_inexact_width :
  print_bar 1 (-9007199254740995) = [LIGHT_SHADE].
Proof.
  rewrite print_bar_cells.
  assert (Hconv : float_of_int (-9007199254740995) = IZR (-9007199254740996)).
  { unfold float_of_int.
    replace (IZR (-9007199254740995)) with (- (9007199254740995)) by lra.
    rewrite b64_opp, b64_above_2_53. lra. }
  assert (Hprod : float_mul 1 (float_of_int (-9007199254740995))
                  = IZR (-9007199254740996)).
  { rewrite Hconv. unfold float_mul. rewrite Rmult_1_l.
    replace (IZR (-9007199254740996)) with (- (9007199254740996)) by lra.
    rewrite b64_opp. f_equal.
    replace 9007199254740996 with (IZR 4503599627370498 * bpow 1)
      by (rewrite (bpow_nonneg_exp 1) by lia; change (2 ^ 1)%Z with 2%Z; lra).
    apply b64_representable.
    replace (IZR 4503599627370498 * bpow 1) with 9007199254740996
      by (rewrite (bpow_nonneg_exp 1) by lia; change (2 ^ 1)%Z with 2%Z; lra).
    assert (Hmag : mag 9007199254740996 = 54%Z).
    { apply mag_unique. change (54 - 1)%Z with 53%Z.
      rewrite (bpow_nonneg_exp 53), (bpow_nonneg_exp 54) by lia.
      change (2 ^ 53)%Z with 9007199254740992%Z.
      change (2 ^ 54)%Z with 18014398509481984%Z.
      rewrite Rabs_pos_eq by lra. lra. }
    unfold cexp; rewrite Hmag; lia. }
  rewrite Hprod.
  assert (Hint : py_int (IZR (-9007199254740996)) = (-9007199254740996)%Z).
  { rewrite py_int_neg by lra. unfold Zceil.
    replace (- IZR (-9007199254740996)) with (IZR 9007199254740996) by lra.
    rewrite ZfloorZ. reflexivity. }
  rewrite Hint. reflexivity.
Qed.

(** ** Further properties of the calculator *)

Lemma usable_content_some (logprobs_data : option ChoiceLogprobs)
  (cs : list TokenLogProb) :
  usable_content logprobs_data = Some cs ->
  exists d : ChoiceLogprobs,
    logprobs_data = Some d /\ content d = Some cs /\ cs <> [].
Proof.
  destruct logprobs_data as [d|]; simpl; [|discriminate].
  destruct (content d) as [[|c rest]|] eqn:Hc; try discriminate.
  intros [= <-]. exists d. repeat split; [exact Hc | discriminate].
Qed.

Lemma calculate_some_inv (logprobs_data : option ChoiceLogprobs)
  (stats : SeqStats) :
  calculate_seq_logprob logprobs_data = Some stats ->
  exists (d : ChoiceLogprobs) (cs : list TokenLogProb),
    logprobs_data = Some d /\ content d = Some cs /\ cs <> []
    /\ stats =
       {| avg_logprob := arithmetic_mean (map tl_logprob cs);
          avg_probability := pow2 (arithmetic_mean (map tl_logprob cs));
          perplexity :=
            exp (clamp (- arithmetic_mean (map tl_logprob cs)) (-700) 700);
          num_tokens := Z.of_nat (List.length cs) |}.
Proof.
  intros Hcalc.
  destruct (usable_content logprobs_data) as [cs|] eqn:Hu.
  - destruct (usable_content_some _ _ Hu) as (d & -> & Hc & Hne).
    exists d, cs. repeat split; try assumption.
    rewrite (calculate_nonempty d cs Hc Hne) in Hcalc.
    now injection Hcalc as <-.
  - unfold calculate_seq_logprob in Hcalc; rewrite Hu in Hcalc; discriminate.
Qed.

Lemma clamp_range (x : R) : -700 <= clamp x (-700) 700 <= 700.
Proof.
  unfold clamp, Rmax, Rmin.
  destruct (Rle_dec x 700); destruct (Rle_dec (-700) _); lra.
Qed.

Lemma clamp_inside (x : R) : clamp x (-700) 700 = x <-> -700 <= x <= 700.
Proof.
  unfold clamp, Rmax, Rmin.
  destruct (Rle_dec x 700); destruct (Rle_dec (-700) _); split; intros; lra.
Qed.

Lemma clamp_monotone (x y : R) :
  x <= y -> clamp x (-700) 700 <= clamp y (-700) 700.
Proof.
  intros Hxy; unfold clamp, Rmax, Rmin.
  destruct (Rle_dec x 700); destruct (Rle_dec y 700);
    repeat match goal with |- context [Rle_dec ?a ?b] => destruct (Rle_dec a b) end;
    lra.
Qed.

Lemma exp_le (x y : R) : x <= y -> exp x <= exp y.
Proof.
  intros [Hlt | ->]; [left; now apply exp_increasing | right; reflexivity].
Qed.

(** X5: whenever the calculator returns stats, the perplexity is positive
    and lies between [exp(-700)] and [exp(700)], and it is
    [exp(-avg_logprob)] exactly when [-700 <= avg_logprob <= 700]. *)
Theorem perplexity_bounded
  (logprobs_data : option ChoiceLogprobs) (stats : SeqStats) :
  calculate_seq_logprob logprobs_data = Some stats ->
  0 < perplexity stats
  /\ exp (-700) <= perplexity stats <= exp 700
  /\ (perplexity stats = exp (- avg_logprob stats)
      <-> -700 <= avg_logprob stats <= 700).
Proof.
  intros Hcalc.
  destruct (calculate_some_inv _ _ Hcalc) as (d & cs & _ & _ & _ & ->); simpl.
  set (a := arithmetic_mean (map tl_logprob cs)).
  pose proof (clamp_range (- a)) as [Hlo Hhi].
  split; [apply exp_pos|]. split; [split; now apply exp_le|].
  split.
  - intros Heq. apply exp_inv in Heq. apply clamp_inside in Heq. lra.
  - intros Hin. f_equal. apply clamp_inside. lra.
Qed.

Lemma perplexity_bounded_witness :
  exists stats : SeqStats,
    calculate_seq_logprob (Some steep_logprobs) = Some stats
    /\ 0 < perplexity stats.
Proof.
  eexists; split; [reflexivity|].
  apply (perplexity_bounded (Some steep_logprobs)); reflexivity.
Defined.

(** X7: when no token has a positive log-probability, the mean
    log-probability is not positive, the mean probability lies in [0, 1],
    the perplexity is at least 1, and the bar of the aggregate line is
    exactly 20 characters wide. *)
Theorem seq_stats_of_probabilities
  (d : ChoiceLogprobs) (cs : list TokenLogProb) (stats : SeqStats) :
  content d = Some cs ->
  calculate_seq_logprob (Some d) = Some stats ->
  (forall t : TokenLogProb, In t cs -> tl_logprob t <= 0) ->
  avg_logprob stats <= 0
  /\ 0 <= avg_probability stats <= 1
  /\ 1 <= perplexity stats
  /\ List.length (print_bar (avg_probability stats) print_bar_default_width)
     = 20%nat.
Proof.
  intros Hc Hcalc Hall.
  destruct (calculate_some_inv _ _ Hcalc) as (d' & cs' & [= <-] & Hc' & Hne & ->).
  rewrite Hc in Hc'; injection Hc' as <-; simpl.
  set (a := arithmetic_mean (map tl_logprob cs)).
  assert (Ha : a <= 0).
  { assert (Hsum : fold_right Rplus 0 (map tl_logprob cs) <= 0).
    { clear -Hall. induction cs as [|c cs IH]; simpl; [lra|].
      assert (tl_logprob c <= 0) by (apply Hall; now left).
      assert (fold_right Rplus 0 (map tl_logprob cs) <= 0)
        by (apply IH; intros t Ht; apply Hall; now right).
      lra. }
    assert (Hn : 0 < INR (List.length (map tl_logprob cs))).
    { apply lt_0_INR. rewrite length_map.
      destruct cs; [contradiction | simpl; lia]. }
    unfold a, arithmetic_mean.
    apply Rmult_le_reg_r with (INR (List.length (map tl_logprob cs)));
      [exact Hn|].
    unfold Rdiv; rewrite Rmult_assoc, Rinv_l by lra. lra. }
  assert (Hprob : 0 <= pow2 a <= 1)
    by (split; [left; apply pow2_pos | now apply pow2_le_1]).
  split; [exact Ha|]. split; [exact Hprob|]. split.
  - rewrite <- exp_0. apply exp_le.
    pose proof (clamp_monotone 0 (- a)) as Hmono.
    assert (H0 : clamp 0 (-700) 700 = 0) by (apply clamp_inside; lra).
    rewrite H0 in Hmono. apply Hmono. lra.
  - apply Nat2Z.inj.
    apply (print_bar_length (pow2 a) 20);
      [exact Hprob | unfold MAX_EXACT_INT; lia].
Qed.

Lemma seq_stats_of_probabilities_witness :
  exists stats : SeqStats,
    calculate_seq_logprob (Some sample_logprobs) = Some stats
    /\ 0 <= avg_probability stats <= 1.
Proof.
  eexists; split; [reflexivity|].
  apply (seq_stats_of_probabilities sample_logprobs sample_content);
    [reflexivity | reflexivity |].
  intros t [<- | [<- | []]]; simpl; lra.
Defined.

Lemma pow2_sum (xs : list R) :
  pow2 (fold_right Rplus 0 xs) = product (map pow2 xs).
Proof.
  induction xs as [|x xs IH]; simpl.
  - apply pow2_0.
  - unfold pow2 in *; rewrite Rpower_plus, IH; reflexivity.
Qed.

(** X8: the mean probability is the geometric mean of the token
    probabilities: raised to the number of tokens it equals the product of
    the probabilities that the extractor stores. *)
Theorem avg_probability_geometric_mean
  (logprobs_data : option ChoiceLogprobs) (stats : SeqStats) :
  calculate_seq_logprob logprobs_data = Some stats ->
  Rpower (avg_probability stats) (IZR (num_tokens stats))
  = product (map probability (extract_token_probabilities logprobs_data)).
Proof.
  intros Hcalc.
  destruct (calculate_some_inv _ _ Hcalc) as (d & cs & -> & Hc & Hne & ->).
  rewrite (extract_nonempty d cs Hc); simpl.
  rewrite map_map; simpl.
  change (fun x : TokenLogProb => Rpower 2 (tl_logprob x))
    with (fun x : TokenLogProb => pow2 (tl_logprob x)).
  rewrite <- (map_map tl_logprob pow2), <- pow2_sum.
  unfold pow2 at 1; rewrite Rpower_mult. unfold pow2; f_equal.
  rewrite <- INR_IZR_INZ.
  unfold arithmetic_mean; rewrite length_map. field.
  apply not_0_INR. destruct cs; [contradiction | discriminate].
Qed.

Lemma avg_probability_geometric_mean_witness :
  exists stats : SeqStats,
    calculate_seq_logprob (Some sample_logprobs) = Some stats
    /\ Rpower (avg_probability stats) 2 = Rpower 2 (-1) * (Rpower 2 (-3) * 1).
Proof.
  eexists; split; [reflexivity|].
  apply (avg_probability_geometric_mean (Some sample_logprobs)); reflexivity.
Defined.

Lemma ln_2_pos : 0 < ln 2.
Proof. pose proof ln_lt_2; lra. Qed.

(** X9: the perplexity is computed in base e and the mean probability in
    base 2, so they are not reciprocal: with the clamp inactive, the
    perplexity is the mean probability raised to the power [-1 / ln 2]
    (floats read as reals). *)
Theorem perplexity_of_avg_probability
  (logprobs_data : option ChoiceLogprobs) (stats : SeqStats) :
  calculate_seq_logprob logprobs_data = Some stats ->
  -700 <= avg_logprob stats <= 700 ->
  perplexity stats = Rpower (avg_probability stats) (- / ln 2).
Proof.
  intros Hcalc.
  destruct (calculate_some_inv _ _ Hcalc) as (d & cs & _ & _ & _ & ->); simpl.
  set (a := arithmetic_mean (map tl_logprob cs)).
  intros Hrange.
  assert (Hclamp : clamp (- a) (-700) 700 = - a) by (apply clamp_inside; lra).
  rewrite Hclamp. unfold pow2. rewrite Rpower_mult.
  unfold Rpower. f_equal. field.
  pose proof ln_2_pos; lra.
Qed.

Lemma perplexity_of_avg_probability_witness :
  exists stats : SeqStats,
    calculate_seq_logprob (Some sample_logprobs) = Some stats
    /\ perplexity stats = Rpower (avg_probability stats) (- / ln 2).
Proof.
  eexists; split; [reflexivity|].
  apply (perplexity_of_avg_probability (Some sample_logprobs));
    [reflexivity |]; unfold py_sum, py_len; simpl; lra.
Defined.

(** X10: the calculator returns nothing exactly when the extractor returns
    the empty list; when it returns stats, [num_tokens] is at least 1 and
    is the number of token stats extracted from the same input. *)
Theorem stats_present_iff_tokens (logprobs_data : option ChoiceLogprobs) :
  (calculate_seq_logprob logprobs_data = None
   <-> extract_token_probabilities logprobs_data = [])
  /\ (forall stats : SeqStats,
        calculate_seq_logprob logprobs_data = Some stats ->
        (1 <= num_tokens stats)%Z
        /\ num_tokens stats
           = Z.of_nat (List.length (extract_token_probabilities logprobs_data))).
Proof.
  split.
  - unfold calculate_seq_logprob, extract_token_probabilities.
    destruct (usable_content logprobs_data) as [cs|] eqn:Hu; [|tauto].
    destruct (usable_content_some _ _ Hu) as (d & _ & _ & Hne).
    rewrite fold_append_token_stat; simpl.
    split; [discriminate|].
    intros Hnil. apply map_eq_nil in Hnil. contradiction.
  - intros stats Hcalc.
    destruct (calculate_some_inv _ _ Hcalc) as (d & cs & -> & Hc & Hne & ->).
    rewrite (extract_nonempty d cs Hc), length_map; simpl.
    split; [|reflexivity].
    destruct cs; [contradiction | simpl; lia].
Qed.

Lemma stats_present_iff_tokens_witness :
  exists stats : SeqStats,
    calculate_seq_logprob (Some sample_logprobs) = Some stats
    /\ (1 <= num_tokens stats)%Z.
Proof.
  eexists; split; [reflexivity|].
  destruct (stats_present_iff_tokens (Some sample_logprobs)) as (_ & Hsome).
  apply Hsome; reflexivity.
Defined.

(** X11: the stats depend on the log-probabilities only, not on the token
    texts: two sequences with the same log-probabilities, in the same
    order, give the same stats. *)
Theorem stats_ignore_token_text (cs cs' : list TokenLogProb) :
  map tl_logprob cs = map tl_logprob cs' ->
  calculate_seq_logprob (Some {| content := Some cs |})
  = calculate_seq_logprob (Some {| content := Some cs' |}).
Proof.
  intros Hsame.
  destruct cs as [|c cs], cs' as [|c' cs']; try discriminate Hsame;
    [reflexivity|].
  unfold calculate_seq_logprob, usable_content; cbn [content].
  now rewrite Hsame.
Qed.

Lemma stats_ignore_token_text_witness :
  calculate_seq_logprob (Some sample_logprobs)
  = calculate_seq_logprob
      (Some {| content :=
                 Some [ {| tl_token := str "Rome"; tl_logprob := -1 |};
                        {| tl_token := str "?"; tl_logprob := -3 |} ] |}).
Proof.
  apply (stats_ignore_token_text sample_content); reflexivity.
Defined.

(** X12: between two results of the calculator, a larger mean
    log-probability gives a mean probability at least as large and a
    perplexity at most as large. *)
Theorem stats_monotone
  (data1 data2 : option ChoiceLogprobs) (stats1 stats2 : SeqStats) :
  calculate_seq_logprob data1 = Some stats1 ->
  calculate_seq_logprob data2 = Some stats2 ->
  avg_logprob stats1 <= avg_logprob stats2 ->
  avg_probability stats1 <= avg_probability stats2
  /\ perplexity stats2 <= perplexity stats1.
Proof.
  intros H1 H2.
  destruct (calculate_some_inv _ _ H1) as (d1 & cs1 & _ & _ & _ & ->).
  destruct (calculate_some_inv _ _ H2) as (d2 & cs2 & _ & _ & _ & ->).
  simpl; intros Hle. split.
  - now apply pow2_le.
  - apply exp_le, clamp_monotone; lra.
Qed.

Lemma stats_monotone_witness :
  exists stats1 stats2 : SeqStats,
    calculate_seq_logprob (Some steep_logprobs) = Some stats1
    /\ calculate_seq_logprob (Some sample_logprobs) = Some stats2
    /\ perplexity stats2 <= perplexity stats1.
Proof.
  eexists; eexists; split; [reflexivity|]; split; [reflexivity|].
  apply (stats_monotone (Some steep_logprobs) (Some sample_logprobs));
    [reflexivity | reflexivity |].
  unfold py_sum, py_len; simpl; lra.
Defined.

Lemma fold_right_Rplus_app (xs ys : list R) :
  fold_right Rplus 0 (xs ++ ys) = fold_right Rplus 0 xs + fold_right Rplus 0 ys.
Proof. induction xs as [|x xs IH]; simpl; [lra | rewrite IH; lra]. Qed.

Lemma mean_times_length (xs : list R) :
  xs <> [] ->
  arithmetic_mean xs * INR (List.length xs) = fold_right Rplus 0 xs.
Proof.
  intros Hne; unfold arithmetic_mean; field.
  apply not_0_INR. destruct xs; [contradiction | discriminate].
Qed.

(** X13: the stats of a concatenation are the weighted combination of the
    stats of the parts: the token counts add up, and the mean
    log-probability times the count is the sum of the same products for the
    two parts. *)
Theorem stats_of_concatenation
  (cs1 cs2 : list TokenLogProb) (stats1 stats2 : SeqStats) :
  calculate_seq_logprob (Some {| content := Some cs1 |}) = Some stats1 ->
  calculate_seq_logprob (Some {| content := Some cs2 |}) = Some stats2 ->
  exists stats : SeqStats,
    calculate_seq_logprob (Some {| content := Some (cs1 ++ cs2) |}) = Some stats
    /\ num_tokens stats = (num_tokens stats1 + num_tokens stats2)%Z
    /\ avg_logprob stats * IZR (num_tokens stats)
       = avg_logprob stats1 * IZR (num_tokens stats1)
         + avg_logprob stats2 * IZR (num_tokens stats2).
Proof.
  intros H1 H2.
  destruct (calculate_some_inv _ _ H1) as (d1 & cs1' & [= <-] & [= <-] & Hne1 & ->).
  destruct (calculate_some_inv _ _ H2) as (d2 & cs2' & [= <-] & [= <-] & Hne2 & ->).
  assert (Hne : cs1 ++ cs2 <> []).
  { intros Happ; apply app_eq_nil in Happ as [Hnil _]; contradiction. }
  eexists; split;
    [apply (calculate_nonempty {| content := Some (cs1 ++ cs2) |} _ eq_refl Hne)|].
  simpl. split; [rewrite length_app; lia|].
  rewrite <- !INR_IZR_INZ.
  rewrite <- (length_map tl_logprob (cs1 ++ cs2)),
          <- (length_map tl_logprob cs1), <- (length_map tl_logprob cs2).
  rewrite !mean_times_length.
  - rewrite map_app; apply fold_right_Rplus_app.
  - destruct cs2; [contradiction | discriminate].
  - destruct cs1; [contradiction | discriminate].
  - destruct cs1; [contradiction | discriminate].
Qed.

Lemma stats_of_concatenation_witness :
  exists stats : SeqStats,
    calculate_seq_logprob
      (Some {| content :=
                 Some (sample_content
                       ++ [ {| tl_token := str "x"; tl_logprob := -800 |} ]) |})
    = Some stats
    /\ num_tokens stats = 3%Z.
Proof.
  destruct (stats_of_concatenation sample_content
              [ {| tl_token := str "x"; tl_logprob := -800 |} ] _ _
              eq_refl eq_refl) as (stats & Hcalc & Hnum & _).
  exists stats; split; [exact Hcalc | exact Hnum].
Defined.

(** ** Order of the labels *)

(** X16: bucketing is monotone: a larger probability never gets a lower
    label in the order VLOW, LOW, MED, HIGH. *)
Theorem get_confidence_label_monotone (p q : R) :
  p <= q ->
  (bucket_rank (fst (get_confidence_label p))
   <= bucket_rank (fst (get_confidence_label q)))%nat.
Proof.
  intros Hpq.
  assert (Hh : bucket_rank HIGH = 3%nat) by reflexivity.
  assert (Hm : bucket_rank MED = 2%nat) by reflexivity.
  assert (Hl : bucket_rank LOW = 1%nat) by reflexivity.
  assert (Hv : bucket_rank VLOW = 0%nat) by reflexivity.
  destruct (bucket_cases p) as [Hp | [Hp | [Hp | Hp]]];
    [ rewrite (label_high p Hp) | rewrite (label_med p Hp)
    | rewrite (label_low p Hp) | rewrite (label_vlow p Hp) ];
    (destruct (bucket_cases q) as [Hq | [Hq | [Hq | Hq]]];
     [ rewrite (label_high q Hq) | rewrite (label_med q Hq)
     | rewrite (label_low q Hq) | rewrite (label_vlow q Hq) ]);
    cbn [fst]; rewrite ?Hh, ?Hm, ?Hl, ?Hv; (lia || lra).
Qed.

Lemma get_confidence_label_monotone_witness :
  (bucket_rank (fst (get_confidence_label 0.3))
   <= bucket_rank (fst (get_confidence_label 0.9)))%nat.
Proof.
  apply get_confidence_label_monotone; lra.
Defined.

(** ** The renderer and the analysis *)

Lemma clients_prints (lines : list pystr) :
  filter is_client (map EvPrint lines) = [].
Proof. induction lines as [|l ls IH]; [reflexivity | exact IH]. Qed.

Lemma requests_cons_request (c : Client) (r : Request) (tr : list event) :
  requests (EvRequest c r :: tr) = r :: requests tr.
Proof. reflexivity. Qed.

Section RendererExtras.

Context {fmt : PyFormat}.

(** X17: whatever the token and its [repr], the displayed token text is at
    most 13 characters long, keeps the first 12 characters of the [repr]
    body, is the body itself when that has at most 12 characters and ends
    in the ellipsis otherwise; the token column is therefore always
    exactly 15 characters wide. *)
Theorem token_column_width (tok : pystr) :
  let body := removelast (tl (py_repr tok)) in
  (List.length (token_display tok) <= 13)%nat
  /\ List.length (ljust 15 (token_display tok)) = 15%nat
  /\ firstn 12 (token_display tok) = firstn 12 body
  /\ ((List.length body <= 12)%nat -> token_display tok = body)
  /\ ((12 < List.length body)%nat ->
      token_display tok = firstn 12 body ++ [ELLIPSIS]
      /\ List.length (token_display tok) = 13%nat).
Proof.
  intros body.
  assert (Hcases :
    ((List.length body <= 12)%nat /\ token_display tok = body)
    \/ ((12 < List.length body)%nat
        /\ token_display tok = firstn 12 body ++ [ELLIPSIS])).
  { unfold token_display; fold body; unfold str_take.
    destruct (12 <? List.length body)%nat eqn:Hcmp.
    - right; apply Nat.ltb_lt in Hcmp; tauto.
    - left; apply Nat.ltb_ge in Hcmp; tauto. }
  assert (Hlen : (List.length (token_display tok) <= 13)%nat).
  { destruct Hcases as [[Hle ->] | [Hgt ->]]; [lia|].
    rewrite length_app, length_firstn; cbn [List.length]; lia. }
  split; [exact Hlen|]. split; [|split; [|split]].
  - unfold ljust; rewrite length_app, repeat_length; lia.
  - destruct Hcases as [[Hle ->] | [Hgt ->]]; [reflexivity|].
    rewrite firstn_app, length_firstn.
    replace (12 - Nat.min 12 (List.length body))%nat with 0%nat by lia.
    rewrite firstn_firstn; simpl. now rewrite app_nil_r.
  - intros Hle. destruct Hcases as [[_ Heq] | [Hgt _]]; [exact Heq | lia].
  - intros Hgt. destruct Hcases as [[Hle _] | [_ Heq]]; [lia|].
    split; [exact Heq|].
    rewrite Heq, length_app, length_firstn; cbn [List.length]; lia.
Qed.

(** X18: for token probabilities and a mean probability in [0,1] the
    renderer only prints: whatever the service, it ends normally after 10
    lines, plus 2 when stats are present, plus one per token; it
    constructs no client and sends no request; and every bar it draws has
    its full width, 15 for a token and 20 for the aggregate. *)
Theorem renderer_only_prints
  (svc : service) (prompt model : pystr) (temperature : R)
  (completion : option pystr) (tokens : list TokenStat)
  (seq_stats : option SeqStats) :
  Forall (fun t : TokenStat => 0 <= probability t <= 1) tokens ->
  (forall stats : SeqStats,
     seq_stats = Some stats -> 0 <= avg_probability stats <= 1) ->
  snd (run svc (print_token_analysis prompt model temperature completion
                  tokens seq_stats)) = Returned tt
  /\ requests
       (fst (run svc (print_token_analysis prompt model temperature
                        completion tokens seq_stats))) = []
  /\ filter is_client
       (fst (run svc (print_token_analysis prompt model temperature
                        completion tokens seq_stats))) = []
  /\ List.length
       (fst (run svc (print_token_analysis prompt model temperature
                        completion tokens seq_stats)))
     = (10 + match seq_stats with Some _ => 2 | None => 0 end
        + List.length tokens)%nat
  /\ Forall (fun t : TokenStat =>
               List.length (print_bar (probability t) 15) = 15%nat) tokens
  /\ (forall stats : SeqStats,
        seq_stats = Some stats ->
        List.length (print_bar (avg_probability stats) print_bar_default_width)
        = 20%nat).
Proof.
  intros Htokens Hstats.
  rewrite print_token_analysis_run; cbn [fst snd].
  split; [reflexivity|]. split; [apply requests_prints|].
  split; [apply clients_prints|]. split; [|split].
  - rewrite length_map, !length_app, length_map.
    destruct seq_stats; simpl; lia.
  - apply Forall_impl with (2 := Htokens). intros t Ht.
    apply Nat2Z.inj.
    apply (print_bar_length (probability t) 15);
      [exact Ht | unfold MAX_EXACT_INT; lia].
  - intros stats Hsome. apply Nat2Z.inj.
    apply (print_bar_length (avg_probability stats) 20);
      [now apply Hstats | unfold MAX_EXACT_INT; lia].
Qed.

(** X19: when the service call raises, or answers with no choice, the
    analysis stops with that exception (an [IndexError] in the second
    case) right after the request: nothing is printed. *)
Theorem analyze_prompt_failures
  (svc : service) (client : Client) (prompt model : pystr) (temperature : R) :
  (forall exn : pystr,
     svc client (completion_request prompt temperature model) = inr exn ->
     run svc (analyze_prompt client prompt model temperature)
     = ([EvRequest client (completion_request prompt temperature model)],
        Uncaught exn))
  /\ (forall response : Response,
        svc client (completion_request prompt temperature model)
          = inl response ->
        choices response = [] ->
        run svc (analyze_prompt client prompt model temperature)
        = ([EvRequest client (completion_request prompt temperature model)],
           Uncaught (str "IndexError"))).
Proof.
  split.
  - intros exn Hsvc. rewrite analyze_prompt_run; cbv zeta. now rewrite Hsvc.
  - intros response Hsvc Hnone.
    rewrite analyze_prompt_run; cbv zeta. now rewrite Hsvc, Hnone.
Qed.

(** X20: only the first choice of the answer is used: two services whose
    answers agree on it give the same run. *)
Theorem analyze_prompt_first_choice
  (svc svc' : service) (client : Client) (prompt model : pystr)
  (temperature : R) (response response' : Response)
  (c : Choice) (rest rest' : list Choice) :
  svc client (completion_request prompt temperature model) = inl response ->
  svc' client (completion_request prompt temperature model) = inl response' ->
  choices response = c :: rest ->
  choices response' = c :: rest' ->
  run svc (analyze_prompt client prompt model temperature)
  = run svc' (analyze_prompt client prompt model temperature).
Proof.
  intros Hsvc Hsvc' Hc Hc'.
  rewrite !analyze_prompt_run; cbv zeta.
  now rewrite Hsvc, Hsvc', Hc, Hc'.
Qed.

(** X21: an analysis sends exactly one request, the one built from its
    prompt, temperature and model, whatever the service answers: there is
    no retry and no second call. *)
Theorem analyze_prompt_single_request
  (svc : service) (client : Client) (prompt model : pystr) (temperature : R) :
  requests (fst (run svc (analyze_prompt client prompt model temperature)))
  = [completion_request prompt temperature model]
  /\ filter is_client
       (fst (run svc (analyze_prompt client prompt model temperature))) = [].
Proof.
  rewrite analyze_prompt_run; cbv zeta.
  destruct (svc client _) as [response | exn]; [|split; reflexivity].
  destruct (choices response) as [|c rest]; [split; reflexivity|].
  cbn [fst]. split.
  - now rewrite requests_cons_request, requests_prints.
  - cbn [filter is_client]. apply clients_prints.
Qed.

(** X22: with a credential other than the placeholder, and a service
    that reports no positive log-probability, the process ends with
    status 0 exactly when the service answers with at least one choice;
    otherwise it ends with status 1, having printed only the
    initialization message. *)
Theorem main_exit_status (svc : service) (key : pystr) :
  key <> PLACEHOLDER ->
  (forall (response : Response) (c : Choice) (rest : list Choice),
     svc (mkClient key) MAIN_REQUEST = inl response ->
     choices response = c :: rest ->
     nonpositive_logprobs (choice_logprobs c)) ->
  (exit_status (snd (run svc (main key))) = 0%Z
   <-> exists (response : Response) (c : Choice) (rest : list Choice),
         svc (mkClient key) MAIN_REQUEST = inl response
         /\ choices response = c :: rest)
  /\ (exit_status (snd (run svc (main key))) <> 0%Z ->
      exit_status (snd (run svc (main key))) = 1%Z
      /\ fst (run svc (main key))
         = [EvClient key; EvPrint INITIALIZED;
            EvRequest (mkClient key) MAIN_REQUEST]).
Proof.
  intros Hne _.
  rewrite (main_configured key Hne); cbn [run].
  rewrite run_print_then, analyze_prompt_run; cbv zeta.
  fold MAIN_REQUEST.
  destruct (svc (mkClient key) MAIN_REQUEST) as [response | exn].
  - destruct (choices response) as [|c rest] eqn:Hc; cbn [fst snd exit_status].
    + split.
      * split; [discriminate|].
        intros (r & c & rest & [= <-] & Hc'). congruence.
      * intros _; split; reflexivity.
    + split.
      * split; [|reflexivity]. intros _. now exists response, c, rest.
      * intros Hbad; now contradiction Hbad.
  - cbn [fst snd exit_status]. split.
    + split; [discriminate|]. intros (r & c & rest & Hsvc & _). discriminate.
    + intros _; split; reflexivity.
Qed.

End RendererExtras.

Lemma analyze_prompt_failures_witness :
  run failing_service
    (@analyze_prompt mark_format (mkClient (str "k")) (str "Capital?")
       (str "m") 0)
  = ([EvRequest (mkClient (str "k"))
        (completion_request (str "Capital?") 0 (str "m"))],
     Uncaught (str "APIConnectionError"))
  /\ run mute_service
       (@analyze_prompt mark_format (mkClient (str "k")) (str "Capital?")
          (str "m") 0)
     = ([EvRequest (mkClient (str "k"))
           (completion_request (str "Capital?") 0 (str "m"))],
        Uncaught (str "IndexError")).
Proof.
  split.
  - apply (@analyze_prompt_failures mark_format failing_service); reflexivity.
  - apply (proj2 (@analyze_prompt_failures mark_format mute_service
                    (mkClient (str "k")) (str "Capital?") (str "m") 0)
             {| choices := [] |}); reflexivity.
Defined.

Lemma analyze_prompt_first_choice_witness :
  run bare_service
    (@analyze_prompt mark_format (mkClient (str "k")) (str "Capital?")
       (str "m") 0)
  = run (fun _ _ =>
           inl {| choices :=
                    [ {| message_content := Some (str "Paris");
                         choice_logprobs := None |};
                      {| message_content := Some (str "Rome");
                         choice_logprobs := Some sample_logprobs |} ] |})
      (@analyze_prompt mark_format (mkClient (str "k")) (str "Capital?")
         (str "m") 0).
Proof.
  eapply (@analyze_prompt_first_choice mark_format); reflexivity.
Defined.

Lemma renderer_only_prints_witness :
  List.length
    (fst (run bare_service
            (@print_token_analysis mark_format (str "Capital?") (str "m") 0
               (Some (str "Paris"))
               [ {| token := str "Paris"; probability := 0.5; logprob := -1 |} ]
               None)))
  = 11%nat.
Proof.
  apply (@renderer_only_prints mark_format bare_service).
  - constructor; [simpl; lra | constructor].
  - intros stats Hsome; discriminate Hsome.
Defined.

Lemma main_exit_status_witness :
  exit_status (snd (run sample_service (@main mark_format (str "sk-demo"))))
  = 0%Z.
Proof.
  assert (Hne : str "sk-demo" <> PLACEHOLDER) by discriminate.
  destruct (@main_exit_status mark_format sample_service (str "sk-demo") Hne)
    as (Hok & _).
  - intros response c rest [= <-] [= <- _]. simpl.
    repeat constructor; simpl; lra.
  - apply Hok.
    exists {| choices := [ {| message_content := Some (str "Paris!");
                              choice_logprobs := Some sample_logprobs |} ] |},
           {| message_content := Some (str "Paris!");
              choice_logprobs := Some sample_logprobs |}, [].
    split; reflexivity.
Defined.

(** ** Further properties of the extractor *)

(** X23: a token whose log-probability is not positive gets a probability
    in [0,1] and a row whose bar is exactly 15 characters wide; a token
    with a positive log-probability gets a probability of at least 1 and
    the label HIGH. *)
Theorem extracted_probability_range
  (logprobs_data : option ChoiceLogprobs) (t : TokenStat) :
  In t (extract_token_probabilities logprobs_data) ->
  (logprob t <= 0 ->
   0 <= probability t <= 1
   /\ List.length (print_bar (probability t) 15) = 15%nat)
  /\ (0 < logprob t ->
      1 <= probability t
      /\ get_confidence_label (probability t) = (HIGH, GREEN)).
Proof.
  intros Ht. rewrite (extract_probability _ t Ht).
  split.
  - intros Hle.
    assert (Hrange : 0 <= pow2 (logprob t) <= 1)
      by (split; [left; apply pow2_pos | now apply pow2_le_1]).
    split; [exact Hrange|].
    apply Nat2Z.inj.
    apply (print_bar_length (pow2 (logprob t)) 15);
      [exact Hrange | unfold MAX_EXACT_INT; lia].
  - intros Hpos.
    apply pow2_lt in Hpos. rewrite pow2_0 in Hpos.
    split; [lra | apply label_high; lra].
Qed.

Lemma extracted_probability_range_witness :
  List.length (print_bar (Rpower 2 (-3)) 15) = 15%nat.
Proof.
  destruct (extracted_probability_range (Some sample_logprobs)
              {| token := str "!"; probability := Rpower 2 (-3); logprob := -3 |})
    as (Hbar & _).
  - right; left; reflexivity.
  - apply Hbar; simpl; lra.
Defined.
